(** * filter.py: the commit-correspondence filter of llvm-repo-tools

    A shallow embedding of [filter.py], the per-commit callback that
    [git filter-branch] runs as an index filter and as a parent filter.
    The script is Python 2: the output of a subprocess is a byte string and
    is handled with [str.strip], [str.split] and [int].

    The external commands ([git], [bash]), the files under [../map], the
    process environment and standard input are the script's environment;
    they are gathered in a record [World].  What the script changes (the
    two on-disk caches of [pyfscache], standard output, the commands it
    runs for their effect and the rename of the index) is gathered in a
    record [State] threaded through a small exception-and-state monad. *)

From Stdlib Require Import ZArith Ascii String List Lia.
From Stdlib Require Import Decimal DecimalString DecimalZ.
From stdpp Require Import base option list strings gmap.

Local Open Scope string_scope.
Local Open Scope Z_scope.

(** ** Python 2 byte-string operations *)

Module PyStr.

(** [c.isspace()] in the C locale: tab, newline, vertical tab, form feed,
    carriage return and space. *)
Definition isspace (c : ascii) : bool :=
  match nat_of_ascii c with
  | 9%nat | 10%nat | 11%nat | 12%nat | 13%nat | 32%nat => true
  | _ => false
  end.

Definition nl : string := String (ascii_of_nat 10) "".

(** [s.lstrip()], [s.rstrip()] and [s.strip()]. *)
Fixpoint lstrip (s : string) : string :=
  match s with
  | "" => ""
  | String c s' => if isspace c then lstrip s' else s
  end.

Fixpoint rstrip (s : string) : string :=
  match s with
  | "" => ""
  | String c s' =>
      match rstrip s' with
      | "" => if isspace c then "" else String c ""
      | r => String c r
      end
  end.

Definition strip (s : string) : string := rstrip (lstrip s).

(** [s.split(sep)] for a one-character separator: never the empty list. *)
Fixpoint split (sep : ascii) (s : string) : list string :=
  match s with
  | "" => [""]
  | String c s' =>
      if Ascii.eqb c sep then "" :: split sep s'
      else match split sep s' with
           | w :: ws => String c w :: ws
           | [] => [String c ""]
           end
  end.

(** [s.split(sep, 1)]: cut at the first separator only. *)
Fixpoint split1 (sep : ascii) (s : string) : list string :=
  match s with
  | "" => [""]
  | String c s' =>
      if Ascii.eqb c sep then [""; s']
      else match split1 sep s' with
           | w :: ws => String c w :: ws
           | [] => [String c ""]
           end
  end.

(** [s.split()]: the maximal runs of non-whitespace characters. *)
Fixpoint split_ws (s : string) : list string :=
  match s with
  | "" => []
  | String c s' =>
      if isspace c then split_ws s'
      else match s' with
           | "" => [String c ""]
           | String c' _ =>
               if isspace c' then String c "" :: split_ws s'
               else match split_ws s' with
                    | w :: ws => String c w :: ws
                    | [] => [String c ""]
                    end
           end
  end.

(** [sep.join(l)]. *)
Fixpoint join (sep : string) (l : list string) : string :=
  match l with
  | [] => ""
  | [x] => x
  | x :: l' => x +:+ sep +:+ join sep l'
  end.

(** [s.startswith(sub)] and [sub in s]. *)
Fixpoint startswith (sub s : string) : bool :=
  match sub with
  | "" => true
  | String a sub' =>
      match s with
      | "" => false
      | String b s' => Ascii.eqb a b && startswith sub' s'
      end
  end.

Fixpoint contains (sub s : string) : bool :=
  startswith sub s ||
  match s with
  | "" => false
  | String _ s' => contains sub s'
  end.

(** [int(s)] in base 10: surrounding whitespace, one optional sign, at least
    one digit.  [None] stands for [ValueError]. *)
Definition parse_digits (s : string) : option Z :=
  match s with
  | "" => None
  | _ => option_map Z.of_uint (NilEmpty.uint_of_string s)
  end.

Definition int (s : string) : option Z :=
  match strip s with
  | String "+" r => parse_digits r
  | String "-" r => option_map Z.opp (parse_digits r)
  | t => parse_digits t
  end.

(** [str(n)] for an integer. *)
Definition str (n : Z) : string := NilZero.string_of_int (Z.to_int n).

(** [repr(s)] of a byte string, and [str(l)] of a list of byte strings. *)
Definition hexdigit (n : nat) : ascii :=
  if (n <? 10)%nat then ascii_of_nat (48 + n) else ascii_of_nat (87 + n).

Definition repr_char (quote c : ascii) : string :=
  let n := nat_of_ascii c in
  if Ascii.eqb c quote || Ascii.eqb c "\" then String "\" (String c "")
  else if (n =? 9)%nat then "\t"
  else if (n =? 10)%nat then "\n"
  else if (n =? 13)%nat then "\r"
  else if (n <? 32)%nat || (127 <=? n)%nat then
    String "\" (String "x" (String (hexdigit (n / 16)) (String (hexdigit (n mod 16)) "")))
  else String c "".

Fixpoint repr_body (quote : ascii) (s : string) : string :=
  match s with
  | "" => ""
  | String c s' => repr_char quote c +:+ repr_body quote s'
  end.

Definition dquote : ascii := ascii_of_nat 34.

Definition repr (s : string) : string :=
  let quote : ascii :=
    if contains "'" s && negb (contains (String dquote "") s) then dquote else "'"%char in
  String quote (repr_body quote s) +:+ String quote "".

Definition str_list (l : list string) : string :=
  "[" +:+ join ", " (map repr l) +:+ "]".

End PyStr.


Import PyStr.

(** ** Exceptions, the environment and the mutable state *)

Inductive Exception : Type :=
  | CalledProcessError (cmd : list string)
  | RuntimeError (msg : string)
  | ValueError
  | IndexError
  | KeyError (key : string)
  | OSError.

Inductive Result (A : Type) : Type :=
  | Ok (a : A)
  | Raise (e : Exception).

Arguments Ok {A} a.
Arguments Raise {A} e.

(** What the script does to the file system: the commands it runs with
    [subprocess.check_call] and the renames it performs. *)
Inductive Effect : Type :=
  | Exec (argv : list string)
  | Rename (src dst : string).

(** The environment of one run of the script.
    - [check_output argv] is the standard output of the command [argv] when
      it exits with status 0, and [None] when it does not
      ([subprocess.check_output] then raises [CalledProcessError]);
    - [check_call argv] tells whether [argv] exits with status 0;
    - [rename_ok src dst] tells whether [os.rename(src, dst)] succeeds;
    - [files] holds the readable files, by path ([open] raises [IOError] on
      any other path);
    - [pyfscache] tells whether [import pyfscache] succeeds, that is, the
      final value of [CACHE_ENABLED]. *)
Record World : Type := {
  check_output : list string -> option string;
  check_call : list string -> bool;
  rename_ok : string -> string -> bool;
  files : gmap string string;
  environ : gmap string string;
  stdin : string;
  pyfscache : bool
}.

(** The two [FSCache] stores under [/tmp/filter-branch-cache], keyed by the
    argument [rev], the text printed so far and the effects so far. *)
Record State : Type := {
  cache_should_edit : gmap string bool;
  cache_map_to_new_upstream : gmap string (option string);
  stdout : string;
  effects : list Effect
}.

Definition set_cache_should_edit (c : gmap string bool) (st : State) : State :=
  {| cache_should_edit := c;
     cache_map_to_new_upstream := cache_map_to_new_upstream st;
     stdout := stdout st;
     effects := effects st |}.

Definition set_cache_map_to_new_upstream (c : gmap string (option string))
    (st : State) : State :=
  {| cache_should_edit := cache_should_edit st;
     cache_map_to_new_upstream := c;
     stdout := stdout st;
     effects := effects st |}.

(** Exceptions over a threaded state; the state reached when an exception
    is raised is kept (what was cached or printed stays so). *)
Definition M (A : Type) : Type := State -> Result A * State.

Definition ret {A : Type} (a : A) : M A := fun st => (Ok a, st).

Definition raise {A : Type} (e : Exception) : M A := fun st => (Raise e, st).

Definition bind {A B : Type} (m : M A) (k : A -> M B) : M B :=
  fun st =>
    match m st with
    | (Ok a, st') => k a st'
    | (Raise e, st') => (Raise e, st')
    end.

Definition lift {A : Type} (r : Result A) : M A := fun st => (r, st).

Definition rbind {A B : Type} (r : Result A) (k : A -> Result B) : Result B :=
  match r with
  | Ok a => k a
  | Raise e => Raise e
  end.

Notation "'let*' x := m 'in' k" := (bind m (fun x => k))
  (at level 10, x pattern, m at level 100, k at level 200).

Notation "'let?' x := r 'in' k" := (rbind r (fun x => k))
  (at level 10, x pattern, r at level 100, k at level 200).

(** ** The script *)

Definition OLD_UPSTREAM : string := "old-clang/master".
Definition NEW_UPSTREAM : string := "origin/master".

Definition subprocess_check_output (w : World) (cmd : list string) : Result string :=
  match check_output w cmd with
  | Some out => Ok out
  | None => Raise (CalledProcessError cmd)
  end.

Definition subprocess_check_call (w : World) (cmd : list string) : M unit :=
  fun st =>
    let st' := {| cache_should_edit := cache_should_edit st;
                  cache_map_to_new_upstream := cache_map_to_new_upstream st;
                  stdout := stdout st;
                  effects := effects st ++ [Exec cmd] |} in
    if check_call w cmd then (Ok tt, st') else (Raise (CalledProcessError cmd), st').

Definition os_rename (w : World) (src dst : string) : M unit :=
  fun st =>
    if rename_ok w src dst then
      (Ok tt, {| cache_should_edit := cache_should_edit st;
                 cache_map_to_new_upstream := cache_map_to_new_upstream st;
                 stdout := stdout st;
                 effects := effects st ++ [Rename src dst] |})
    else (Raise OSError, st).

(** [print(s)]: the text and a newline. *)
Definition print (s : string) : M unit :=
  fun st =>
    (Ok tt, {| cache_should_edit := cache_should_edit st;
               cache_map_to_new_upstream := cache_map_to_new_upstream st;
               stdout := stdout st +:+ s +:+ nl;
               effects := effects st |}).

(** [cache_decorator(name)]: with [pyfscache] the function is wrapped by the
    store of that name, which answers from its entry for [rev] when there is
    one and records the value returned otherwise (a raised exception records
    nothing); without [pyfscache] the function is returned as it is. *)
Definition cache_decorator {V : Type} (w : World)
    (store : State -> gmap string V) (set_store : gmap string V -> State -> State)
    (fn : string -> M V) : string -> M V :=
  fun rev st =>
    if pyfscache w then
      match store st !! rev with
      | Some v => (Ok v, st)
      | None =>
          match fn rev st with
          | (Ok v, st') => (Ok v, set_store (<[rev := v]> (store st')) st')
          | (Raise e, st') => (Raise e, st')
          end
      end
    else fn rev st.

(** [time_decorator]: the two clock readings are dropped, the call's result
    is returned. *)
Definition time_decorator {A B : Type} (fn : A -> B) : A -> B := fn.

(** The body of [should_edit]. *)
Definition should_edit_body (w : World) (rev : string) : Result bool :=
  let? out := subprocess_check_output w ["git"; "merge-base"; rev; OLD_UPSTREAM] in
  let merge_base := strip out in
  Ok (negb (String.eqb merge_base rev)).

Definition should_edit (w : World) : string -> M bool :=
  cache_decorator w cache_should_edit set_cache_should_edit
    (time_decorator (fun rev => lift (should_edit_body w rev))).

Definition ambiguity_message (rev : string) : string :=
  "Revision " +:+ rev +:+ " has more than one corresponding rev in new upstream, "
  +:+ NEW_UPSTREAM +:+ ".  Maybe (author email, date) is not unique?".

Definition missing_message (rev : string) : string :=
  "Couldn't map_to_new_upstream revision " +:+ rev +:+ " from " +:+ OLD_UPSTREAM
  +:+ " to " +:+ NEW_UPSTREAM +:+ ".".

(** The body of [map_to_new_upstream]. *)
Definition map_to_new_upstream_body (w : World) (rev : string) : Result (option string) :=
  let? out := subprocess_check_output w ["git"; "show"; "-s"; "--format=%at %ae"; rev] in
  match split1 " " (strip out) with
  | [date; email] =>
      match int date with
      | None => Raise ValueError
      | Some d =>
          let? out := subprocess_check_output w
            ["git"; "log"; "--author"; email; "--since"; date; "--until"; str (d + 1);
             "--pretty=%H"; NEW_UPSTREAM] in
          let new_upstream_revs := split "010" (strip out) in
          if (1 <? length new_upstream_revs)%nat then
            Raise (RuntimeError (ambiguity_message rev))
          else
            let no_match :=
              let? out := subprocess_check_output w
                ["git"; "merge-base"; rev; OLD_UPSTREAM] in
              let in_old_upstream := String.eqb (strip out) rev in
              if in_old_upstream then Raise (RuntimeError (missing_message rev))
              else Ok None in
            match new_upstream_revs with
            | [] => no_match
            | r0 :: _ => if String.eqb r0 "" then no_match else Ok (Some r0)
            end
      end
  | _ => Raise ValueError
  end.

Definition map_to_new_upstream (w : World) : string -> M (option string) :=
  cache_decorator w cache_map_to_new_upstream set_cache_map_to_new_upstream
    (time_decorator (fun rev => lift (map_to_new_upstream_body w rev))).

Definition malformed_message (mapfile : string) (lines : list string) : string :=
  "mapfile " +:+ mapfile +:+ " doesn't contain a single line: " +:+ str_list lines.

Definition map_to_filtered (w : World) (rev : string) : Result (option string) :=
  let mapfile := "../map/" +:+ rev in
  match files w !! mapfile with
  | None => Ok None
  | Some content =>
      let lines := split "010" (strip content) in
      if negb (length lines =? 1)%nat then
        Raise (RuntimeError (malformed_message mapfile lines))
      else
        match lines with
        | l0 :: _ => Ok (Some l0)
        | [] => Raise IndexError
        end
  end.

(** The shell command of [filter_index]: the raw string with its three
    [%s] filled in. *)
Definition sh_cmd (rev parent_rev new_index_file : string) : string :=
  nl +:+ "    cat <(git ls-tree -r " +:+ rev +:+ " | sed -e $'s:\t:\tclang/:') \" +:+ nl
  +:+ "        <(git ls-tree -r " +:+ parent_rev +:+ " | grep -v $'\tclang/') | \" +:+ nl
  +:+ "    GIT_INDEX_FILE=" +:+ new_index_file +:+ " git update-index --index-info" +:+ nl
  +:+ "  ".

(** Truth value of a result that is [None] or a string. *)
Definition truthy (o : option string) : bool :=
  match o with
  | None => false
  | Some s => negb (String.eqb s "")
  end.

(** The loop of [filter_index] over the lazily mapped parents:
    [parent_rev] is replaced by the first result that is not [None]. *)
Fixpoint first_mapped_parent (w : World) (parents : list string) (parent_rev : string)
    : M string :=
  match parents with
  | [] => ret parent_rev
  | p :: rest =>
      let* tp := map_to_new_upstream w p in
      match tp with
      | None => first_mapped_parent w rest parent_rev
      | Some t => ret t
      end
  end.

Definition filter_index (w : World) (rev : string) : M unit :=
  time_decorator (fun rev =>
    let* edit := should_edit w rev in
    if negb edit then ret tt
    else
      let* out := lift (subprocess_check_output w
                          ["git"; "rev-list"; "--parents"; "-n"; "1"; rev]) in
      let parents := tail (split_ws (strip out)) in
      match parents with
      | [] => raise IndexError
      | p0 :: _ =>
          let* parent_rev := first_mapped_parent w parents p0 in
          let* filtered_parent_rev := lift (map_to_filtered w parent_rev) in
          let parent_rev :=
            if truthy filtered_parent_rev
            then default parent_rev filtered_parent_rev
            else parent_rev in
          match environ w !! "GIT_INDEX_FILE" with
          | None => raise (KeyError "GIT_INDEX_FILE")
          | Some index_file =>
              let new_index_file := index_file +:+ ".new" in
              let* _ := subprocess_check_call w
                          ["bash"; "-c"; sh_cmd rev parent_rev new_index_file] in
              os_rename w new_index_file index_file
          end
      end) rev.

(** The loop of [filter_parent] over the tokens of standard input. *)
Fixpoint rewrite_parents (w : World) (tokens new_parents : list string)
    : M (list string) :=
  match tokens with
  | [] => ret new_parents
  | p :: rest =>
      if String.eqb p "-p" then rewrite_parents w rest (new_parents ++ [p])
      else
        let* tp := map_to_new_upstream w p in
        if truthy tp
        then rewrite_parents w rest (new_parents ++ [default p tp])
        else rewrite_parents w rest (new_parents ++ [p])
  end.

Definition filter_parent (w : World) (rev : string) : M unit :=
  time_decorator (fun rev =>
    let* edit := should_edit w rev in
    if negb edit then print (stdin w)
    else
      let* new_parents := rewrite_parents w (split_ws (strip (stdin w))) [] in
      print (join " " new_parents)) rev.

(** ** Cache coherence

    A store is coherent with the environment when each of its entries is
    the value the wrapped function returns in that environment: the state
    the stores are in when they were filled by earlier runs over the same
    repository. *)

Definition coherent_should_edit (w : World) (st : State) : Prop :=
  forall rev b, cache_should_edit st !! rev = Some b -> should_edit_body w rev = Ok b.

Definition coherent_map_to_new_upstream (w : World) (st : State) : Prop :=
  forall rev v,
    cache_map_to_new_upstream st !! rev = Some v -> map_to_new_upstream_body w rev = Ok v.

(** The initial state of a first run: empty stores, nothing printed. *)
Definition initial : State :=
  {| cache_should_edit := ∅; cache_map_to_new_upstream := ∅;
     stdout := ""; effects := [] |}.


(** ** Notions used to state the properties *)

Definition newline : ascii := "010"%char.

Definition merge_base_cmd (rev : string) : list string :=
  ["git"; "merge-base"; rev; OLD_UPSTREAM].

Definition show_cmd (rev : string) : list string :=
  ["git"; "show"; "-s"; "--format=%at %ae"; rev].

Definition log_cmd (email since until : string) : list string :=
  ["git"; "log"; "--author"; email; "--since"; since; "--until"; until;
   "--pretty=%H"; NEW_UPSTREAM].

Definition rev_list_cmd (rev : string) : list string :=
  ["git"; "rev-list"; "--parents"; "-n"; "1"; rev].

(** [rev] lies on the old upstream line: the merge base of [rev] and the old
    upstream tip is [rev] (the test of the script's own comments). *)
Definition on_old_upstream (w : World) (rev : string) : Prop :=
  exists out, check_output w (merge_base_cmd rev) = Some out /\ strip out = rev.

(** Commit time and author email of [rev], as [git show] reports them. *)
Definition commit_meta (w : World) (rev : string) : option (Z * string) :=
  match check_output w (show_cmd rev) with
  | Some out =>
      match split1 " " (strip out) with
      | [date; email] =>
          match int date with
          | Some t => Some (t, email)
          | None => None
          end
      | _ => None
      end
  | None => None
  end.

(** The contract of the log query: every commit it lists is by the author
    asked for and has its time between the two bounds, both included. *)
Definition log_honours_filter (w : World) : Prop :=
  forall email since until out h,
    check_output w (log_cmd email since until) = Some out ->
    h ∈ split newline (strip out) -> h <> "" ->
    exists t lo hi,
      commit_meta w h = Some (t, email) /\
      int since = Some lo /\ int until = Some hi /\ lo <= t <= hi.

(** Number of lines of a text: its newline-terminated lines and a last
    unterminated one, if any. *)
Definition line_count (s : string) : nat :=
  let parts := split newline s in
  match last parts with
  | Some "" => (length parts - 1)%nat
  | _ => length parts
  end.

(** The reference parent of [filter_index], read off the mapper's body: the
    first correspondence among [parents], else [fallback]. *)
Fixpoint reference_parent (w : World) (parents : list string) (fallback : string)
    : Result string :=
  match parents with
  | [] => Ok fallback
  | p :: rest =>
      match map_to_new_upstream_body w p with
      | Ok None => reference_parent w rest fallback
      | Ok (Some t) => Ok t
      | Raise e => Raise e
      end
  end.

(** [ref] is the correspondence of the first of [parents] that has one, the
    parents before it having none; or no parent has one and [ref] is the
    first parent. *)
Definition chosen_reference (w : World) (parents : list string) (ref : string) : Prop :=
  (exists i p,
     parents !! i = Some p /\
     map_to_new_upstream_body w p = Ok (Some ref) /\
     forall j q, (j < i)%nat -> parents !! j = Some q ->
                 map_to_new_upstream_body w q = Ok None) \/
  ((forall q, q ∈ parents -> map_to_new_upstream_body w q = Ok None) /\
   head parents = Some ref).

(** The parent whose tree is read: the rewrite-map entry of the reference
    parent when it holds a hash, the reference parent otherwise. *)
Definition tree_parent (ref : string) (entry : option string) : string :=
  match entry with
  | Some h => if String.eqb h "" then ref else h
  | None => ref
  end.

(** The last two steps of [filter_index], once the tree parent is known:
    the shell command that builds the new index and the rename. *)
Definition build_cmd (rev parent index_file : string) : list string :=
  ["bash"; "-c"; sh_cmd rev parent (index_file +:+ ".new")].

Definition publish_result (w : World) (rev parent index_file : string) : Result unit :=
  if check_call w (build_cmd rev parent index_file) then
    if rename_ok w (index_file +:+ ".new") index_file then Ok tt else Raise OSError
  else Raise (CalledProcessError (build_cmd rev parent index_file)).

Definition publish_effects (w : World) (rev parent index_file : string) : list Effect :=
  if check_call w (build_cmd rev parent index_file) then
    if rename_ok w (index_file +:+ ".new") index_file
    then [Exec (build_cmd rev parent index_file);
          Rename (index_file +:+ ".new") index_file]
    else [Exec (build_cmd rev parent index_file)]
  else [Exec (build_cmd rev parent index_file)].


(** The parent list [-p p1 -p p2 ...] as tokens. *)
Definition flag_tagged (parents : list string) : list string :=
  concat (map (fun p => ["-p"; p]) parents).

(** A parent after rewriting: its correspondence when it has one. *)
Definition new_parent (w : World) (p : string) : string :=
  match map_to_new_upstream_body w p with
  | Ok (Some t) => t
  | _ => p
  end.

(** ** A fixture repository

    The old upstream line is [e1 <- f1 <- a1] with tip [a1]; the new upstream
    line holds [b1] (author and time of [a1]) and [b2], [b3] (author of [f1],
    within a second of it); [e1] has no counterpart.  The foreign commits are
    [c1] (parent [a1]), [d1] (parent [c1]) and the merge [m1] (parents [c1],
    [a1]); [r1] is listed without parents.  [b1] has been rewritten to
    [b1f]. *)
Module Fixture.

Definition merge_base (rev out : string) : list string * string :=
  (["git"; "merge-base"; rev; OLD_UPSTREAM], out +:+ nl).

Definition show (rev date email : string) : list string * string :=
  (["git"; "show"; "-s"; "--format=%at %ae"; rev], date +:+ " " +:+ email +:+ nl).

Definition log (email since until out : string) : list string * string :=
  (["git"; "log"; "--author"; email; "--since"; since; "--until"; until;
    "--pretty=%H"; NEW_UPSTREAM], out).

Definition rev_list (rev out : string) : list string * string :=
  (["git"; "rev-list"; "--parents"; "-n"; "1"; rev], out +:+ nl).

Definition commands : list (list string * string) :=
  [ merge_base "a1" "a1"; merge_base "f1" "f1"; merge_base "e1" "e1";
    merge_base "c1" "a1"; merge_base "d1" "a1"; merge_base "m1" "a1";
    merge_base "r1" "a1";
    show "a1" "1400000000" "alice@example.com";
    show "b1" "1400000000" "alice@example.com";
    show "f1" "1399980000" "frank@example.com";
    show "b2" "1399980000" "frank@example.com";
    show "b3" "1399980001" "frank@example.com";
    show "e1" "1399970000" "erin@example.com";
    show "c1" "1400000500" "carol@example.com";
    show "d1" "1400000600" "dave@example.com";
    show "m1" "1400000700" "carol@example.com";
    log "alice@example.com" "1400000000" "1400000001" ("b1" +:+ nl);
    log "frank@example.com" "1399980000" "1399980001" ("b3" +:+ nl +:+ "b2" +:+ nl);
    log "erin@example.com" "1399970000" "1399970001" "";
    log "carol@example.com" "1400000500" "1400000501" "";
    log "dave@example.com" "1400000600" "1400000601" "";
    log "carol@example.com" "1400000700" "1400000701" "";
    rev_list "c1" "c1 a1"; rev_list "d1" "d1 c1"; rev_list "m1" "m1 c1 a1";
    rev_list "r1" "r1" ].

Definition answer (table : list (list string * string)) (argv : list string)
    : option string :=
  match find (fun e => bool_decide (e.1 = argv)) table with
  | Some e => Some e.2
  | None => None
  end.

Definition map_files : gmap string string :=
  {[ "../map/b1" := "b1f" +:+ nl;
     "../map/two" := "x1" +:+ nl +:+ "y1" +:+ nl;
     "../map/blank" := "" ]}.

(** The repository seen by a run whose standard input is [input]. *)
Definition repo (input : string) : World :=
  {| check_output := answer commands;
     check_call := fun _ => true;
     rename_ok := fun _ _ => true;
     files := map_files;
     environ := {[ "GIT_INDEX_FILE" := "/tmp/rewrite/t/../index" ]};
     stdin := input;
     pyfscache := true |}.

(** A state whose [should_edit] store is stale: it holds that [e1], a commit
    of the old upstream line, is to be edited. *)
Definition stale : State :=
  {| cache_should_edit := {[ "e1" := true ]};
     cache_map_to_new_upstream := ∅;
     stdout := "";
     effects := [] |}.

End Fixture.

(** ** The entry point *)

(** How a run of the script ends: it reaches the end of the file, calls
    [sys.exit], or dies of an exception that nothing catches. *)
Inductive Termination : Type :=
  | Completed
  | SystemExit (status : Z)
  | Uncaught (e : Exception).

(** The exit status the interpreter gives the process. *)
Definition exit_status (t : Termination) : Z :=
  match t with
  | Completed => 0
  | SystemExit status => status
  | Uncaught _ => 1
  end.

Definition usage_message (argv0 : string) : string :=
  "Usage: " +:+ argv0 +:+ " index|parent".

Definition finish (run : Result unit * State) : Termination * State :=
  match run with
  | (Ok _, st) => (Completed, st)
  | (Raise e, st) => (Uncaught e, st)
  end.

(** [cmd == name], for a [cmd] that is [None] or a string. *)
Definition cmd_is (cmd : option string) (name : string) : bool :=
  match cmd with
  | Some c => String.eqb c name
  | None => false
  end.

(** The [__main__] block; [argv0] is [sys.argv[0]] and [args] is
    [sys.argv[1:]]. *)
Definition main (w : World) (argv0 : string) (args : list string) (st : State)
    : Termination * State :=
  match environ w !! "GIT_COMMIT" with
  | None => (Uncaught (KeyError "GIT_COMMIT"), st)
  | Some rev =>
      let cmd := head args in
      if cmd_is cmd "index" then finish (filter_index w rev st)
      else if cmd_is cmd "parent" then finish (filter_parent w rev st)
      else (SystemExit 1, (print (usage_message argv0) st).2)
  end.

(** ** Variations of the environment *)

(** The same environment with [pyfscache] importable or not. *)
Definition with_pyfscache (enabled : bool) (w : World) : World :=
  {| check_output := check_output w;
     check_call := check_call w;
     rename_ok := rename_ok w;
     files := files w;
     environ := environ w;
     stdin := stdin w;
     pyfscache := enabled |}.

(** The environment after the driver has written [content] to the map file
    of [rev]. *)
Definition with_map_entry (rev content : string) (w : World) : World :=
  {| check_output := check_output w;
     check_call := check_call w;
     rename_ok := rename_ok w;
     files := <["../map/" +:+ rev := content]> (files w);
     environ := environ w;
     stdin := stdin w;
     pyfscache := pyfscache w |}.

(** Every entry of the two stores of [st] is an entry of those of [st']. *)
Definition caches_grow (st st' : State) : Prop :=
  cache_should_edit st ⊆ cache_should_edit st' /\
  cache_map_to_new_upstream st ⊆ cache_map_to_new_upstream st'.

(** A word for the shell: not empty and free of whitespace. *)
Fixpoint no_space (s : string) : bool :=
  match s with
  | "" => true
  | String c s' => negb (isspace c) && no_space s'
  end.

Definition is_word (s : string) : bool := negb (String.eqb s "") && no_space s.

(** The observable outcome of a run: its result, what it printed and what it
    did to the file system (the stores of [pyfscache] left out). *)
Definition observable {A : Type} (run : Result A * State) : Result A * string * list Effect :=
  (run.1, stdout run.2, effects run.2).

(** A fixture with the environment of a [git filter-branch] step: the
    commit under [GIT_COMMIT] and the index under [GIT_INDEX_FILE]. *)
Module Driver.

Definition step (rev input : string) : World :=
  {| check_output := Fixture.answer Fixture.commands;
     check_call := fun _ => true;
     rename_ok := fun _ _ => true;
     files := Fixture.map_files;
     environ := {[ "GIT_COMMIT" := rev; "GIT_INDEX_FILE" := "/tmp/rewrite/t/../index" ]};
     stdin := input;
     pyfscache := true |}.

(** The fixture repository with a merge [m2] of [c1] and [f1], a commit
    [m3] whose only parent is the foreign commit [two], and the environment
    variables [env]. *)
Definition commands : list (list string * string) :=
  [ Fixture.rev_list "m2" "m2 c1 f1"; Fixture.merge_base "m2" "a1";
    Fixture.rev_list "m3" "m3 two"; Fixture.merge_base "m3" "a1";
    Fixture.merge_base "two" "a1";
    Fixture.show "two" "1400000800" "carol@example.com";
    Fixture.log "carol@example.com" "1400000800" "1400000801" "" ]
  ++ Fixture.commands.

Definition repo (env : gmap string string) (input : string) : World :=
  {| check_output := Fixture.answer commands;
     check_call := fun _ => true;
     rename_ok := fun _ _ => true;
     files := Fixture.map_files;
     environ := env;
     stdin := input;
     pyfscache := true |}.

End Driver.
(** * Properties *)

Section Decorated.
Variable w : World.

Lemma should_edit_eq rev st :
  should_edit w rev st =
    if pyfscache w then
      match cache_should_edit st !! rev with
      | Some v => (Ok v, st)
      | None =>
          match should_edit_body w rev with
          | Ok v => (Ok v, set_cache_should_edit (<[rev := v]> (cache_should_edit st)) st)
          | Raise e => (Raise e, st)
          end
      end
    else (should_edit_body w rev, st).
Proof.
  unfold should_edit, cache_decorator, time_decorator, lift.
  destruct (pyfscache w); [|reflexivity].
  destruct (cache_should_edit st !! rev); [reflexivity|].
  destruct (should_edit_body w rev); reflexivity.
Qed.

Lemma map_to_new_upstream_eq rev st :
  map_to_new_upstream w rev st =
    if pyfscache w then
      match cache_map_to_new_upstream st !! rev with
      | Some v => (Ok v, st)
      | None =>
          match map_to_new_upstream_body w rev with
          | Ok v =>
              (Ok v, set_cache_map_to_new_upstream
                       (<[rev := v]> (cache_map_to_new_upstream st)) st)
          | Raise e => (Raise e, st)
          end
      end
    else (map_to_new_upstream_body w rev, st).
Proof.
  unfold map_to_new_upstream, cache_decorator, time_decorator, lift.
  destruct (pyfscache w); [|reflexivity].
  destruct (cache_map_to_new_upstream st !! rev); [reflexivity|].
  destruct (map_to_new_upstream_body w rev); reflexivity.
Qed.

(** With a coherent store the decorated function answers as its body. *)
Lemma should_edit_result rev st :
  coherent_should_edit w st -> (should_edit w rev st).1 = should_edit_body w rev.
Proof.
  intros Hc. rewrite should_edit_eq.
  destruct (pyfscache w); [|reflexivity].
  destruct (cache_should_edit st !! rev) as [b|] eqn:E.
  - symmetry. apply Hc, E.
  - destruct (should_edit_body w rev); reflexivity.
Qed.

Lemma map_to_new_upstream_result rev st :
  coherent_map_to_new_upstream w st ->
  (map_to_new_upstream w rev st).1 = map_to_new_upstream_body w rev.
Proof.
  intros Hc. rewrite map_to_new_upstream_eq.
  destruct (pyfscache w); [|reflexivity].
  destruct (cache_map_to_new_upstream st !! rev) as [b|] eqn:E.
  - symmetry. apply Hc, E.
  - destruct (map_to_new_upstream_body w rev); reflexivity.
Qed.

(** Neither decorated function prints or acts on the file system, and
    each leaves the other's store alone. *)
Lemma should_edit_frame rev st :
  let st' := (should_edit w rev st).2 in
  stdout st' = stdout st /\ effects st' = effects st /\
  cache_map_to_new_upstream st' = cache_map_to_new_upstream st.
Proof.
  rewrite should_edit_eq.
  destruct (pyfscache w); [|easy].
  destruct (cache_should_edit st !! rev); [easy|].
  destruct (should_edit_body w rev); easy.
Qed.

Lemma map_to_new_upstream_frame rev st :
  let st' := (map_to_new_upstream w rev st).2 in
  stdout st' = stdout st /\ effects st' = effects st /\
  cache_should_edit st' = cache_should_edit st.
Proof.
  rewrite map_to_new_upstream_eq.
  destruct (pyfscache w); [|easy].
  destruct (cache_map_to_new_upstream st !! rev); [easy|].
  destruct (map_to_new_upstream_body w rev); easy.
Qed.

(** Coherence is an invariant of both calls. *)
Lemma should_edit_coherent rev st :
  coherent_should_edit w st -> coherent_should_edit w (should_edit w rev st).2.
Proof.
  intros Hc. rewrite should_edit_eq.
  destruct (pyfscache w); [|exact Hc].
  destruct (cache_should_edit st !! rev) as [b|] eqn:E; [exact Hc|].
  destruct (should_edit_body w rev) as [b|e] eqn:Eb; [|exact Hc].
  intros r v. simpl. rewrite lookup_insert.
  case_decide as Hr.
  - intros [= <-]. subst r. exact Eb.
  - apply Hc.
Qed.

Lemma map_to_new_upstream_coherent rev st :
  coherent_map_to_new_upstream w st ->
  coherent_map_to_new_upstream w (map_to_new_upstream w rev st).2.
Proof.
  intros Hc. rewrite map_to_new_upstream_eq.
  destruct (pyfscache w); [|exact Hc].
  destruct (cache_map_to_new_upstream st !! rev) as [b|] eqn:E; [exact Hc|].
  destruct (map_to_new_upstream_body w rev) as [b|e] eqn:Eb; [|exact Hc].
  intros r v. simpl. rewrite lookup_insert.
  case_decide as Hr.
  - intros [= <-]. subst r. exact Eb.
  - apply Hc.
Qed.

Lemma should_edit_keeps_map_coherent rev st :
  coherent_map_to_new_upstream w st ->
  coherent_map_to_new_upstream w (should_edit w rev st).2.
Proof.
  intros Hc r v. destruct (should_edit_frame rev st) as (_ & _ & ->). apply Hc.
Qed.

End Decorated.

Lemma coherent_should_edit_initial w : coherent_should_edit w initial.
Proof. intros rev b. simpl. rewrite lookup_empty. discriminate. Qed.

Lemma coherent_map_to_new_upstream_initial w : coherent_map_to_new_upstream w initial.
Proof. intros rev b. simpl. rewrite lookup_empty. discriminate. Qed.

(** ** Facts on byte strings *)

Lemma rstrip_app_nl s : rstrip (s +:+ nl) = rstrip s.
Proof.
  induction s as [|c s IH]; [reflexivity|].
  simpl. rewrite IH. reflexivity.
Qed.

Lemma strip_app_nl s : strip (s +:+ nl) = strip s.
Proof.
  unfold strip. induction s as [|c s IH]; [reflexivity|].
  simpl. destruct (isspace c); [exact IH|].
  apply (rstrip_app_nl (String c s)).
Qed.

Lemma append_assoc (a b c : string) : (a +:+ b) +:+ c = a +:+ b +:+ c.
Proof.
  induction a as [|x a IH]; [reflexivity|].
  change (String x ((a +:+ b) +:+ c) = String x (a +:+ b +:+ c)).
  rewrite IH. reflexivity.
Qed.

Lemma append_nil_r (a : string) : a +:+ "" = a.
Proof.
  induction a as [|x a IH]; [reflexivity|].
  change (String x (a +:+ "") = String x a). rewrite IH. reflexivity.
Qed.

Lemma startswith_app s t : startswith s (s +:+ t) = true.
Proof.
  induction s as [|c s IH]; [reflexivity|].
  change (Ascii.eqb c c && startswith s (s +:+ t) = true).
  rewrite Ascii.eqb_refl, IH. reflexivity.
Qed.

Lemma contains_app a sub b : contains sub (a +:+ sub +:+ b) = true.
Proof.
  induction a as [|c a IH].
  - change ("" +:+ sub +:+ b) with (sub +:+ b).
    destruct sub as [|x sub]; [destruct b; reflexivity|].
    change (String x sub +:+ b) with (String x (sub +:+ b)).
    cbn [contains].
    change (String x (sub +:+ b)) with (String x sub +:+ b).
    rewrite startswith_app. reflexivity.
  - change (String c a +:+ sub +:+ b) with (String c (a +:+ sub +:+ b)).
    cbn [contains]. rewrite IH. apply orb_true_r.
Qed.

Lemma contains_suffix a sub : contains sub (a +:+ sub) = true.
Proof.
  rewrite <- (append_nil_r sub) at 2. apply contains_app.
Qed.

(** Decimal rendering and parsing agree. *)
Lemma lstrip_digits d : lstrip (NilEmpty.string_of_uint d) = NilEmpty.string_of_uint d.
Proof. destruct d; reflexivity. Qed.

Lemma rstrip_digits d : rstrip (NilEmpty.string_of_uint d) = NilEmpty.string_of_uint d.
Proof.
  induction d; cbn [NilEmpty.string_of_uint rstrip]; [reflexivity|..];
    rewrite IHd; destruct (NilEmpty.string_of_uint d); reflexivity.
Qed.

Lemma strip_digits d : strip (NilEmpty.string_of_uint d) = NilEmpty.string_of_uint d.
Proof. unfold strip. rewrite lstrip_digits. apply rstrip_digits. Qed.

Lemma parse_digits_uint d :
  d <> Nil -> parse_digits (NilEmpty.string_of_uint d) = Some (Z.of_uint d).
Proof.
  intros Hd. unfold parse_digits.
  pose proof (NilEmpty.usu d) as Hu.
  destruct d; [congruence|..]; cbn [NilEmpty.string_of_uint] in *;
    rewrite Hu; reflexivity.
Qed.

Lemma int_digits d :
  d <> Nil -> int (NilEmpty.string_of_uint d) = Some (Z.of_uint d).
Proof.
  intros Hd. unfold int. rewrite strip_digits.
  pose proof (parse_digits_uint d Hd) as Hp.
  destruct d; [congruence|..]; exact Hp.
Qed.

Lemma int_minus_digits d :
  d <> Nil -> int (String "-" (NilEmpty.string_of_uint d)) = Some (- Z.of_uint d).
Proof.
  intros Hd. unfold int.
  assert (Hs : strip (String "-" (NilEmpty.string_of_uint d))
               = String "-" (NilEmpty.string_of_uint d)).
  { unfold strip. cbn [lstrip isspace]. change (isspace "-") with false. cbv iota.
    cbn [rstrip]. rewrite rstrip_digits.
    destruct d; [congruence|..]; reflexivity. }
  rewrite Hs. rewrite (parse_digits_uint d Hd). reflexivity.
Qed.

Lemma int_string_of_int i : int (NilZero.string_of_int i) = Some (Z.of_int i).
Proof.
  destruct i as [d|d]; unfold NilZero.string_of_int, NilZero.string_of_uint, Z.of_int.
  - destruct d eqn:E; [reflexivity|..]; rewrite <- E;
      apply int_digits; congruence.
  - destruct d eqn:E; [reflexivity|..]; rewrite <- E;
      apply int_minus_digits; congruence.
Qed.

Lemma int_str z : int (str z) = Some z.
Proof.
  unfold str. rewrite int_string_of_int. f_equal. apply DecimalZ.of_to.
Qed.

(** ** The ancestry classifier *)

(** C4: [should_edit rev] is true exactly when the merge base of [rev] and
    the old upstream tip, as [git merge-base] prints it, is not [rev], and
    false exactly when it is [rev]; so it is false when git answers with
    [rev] itself, as it does for the tip of the old upstream line. *)
Theorem should_edit_iff_merge_base_differs (w : World) (st : State) (rev out : string) :
  coherent_should_edit w st ->
  check_output w ["git"; "merge-base"; rev; OLD_UPSTREAM] = Some out ->
  ((should_edit w rev st).1 = Ok true <-> strip out <> rev) /\
  ((should_edit w rev st).1 = Ok false <-> strip out = rev) /\
  (strip rev = rev -> out = rev +:+ nl -> (should_edit w rev st).1 = Ok false).
Proof.
  intros Hc Hout.
  rewrite (should_edit_result w rev st Hc).
  unfold should_edit_body, subprocess_check_output. rewrite Hout. simpl.
  assert (Hiff : String.eqb (strip out) rev = true <-> strip out = rev)
    by apply String.eqb_eq.
  destruct (String.eqb (strip out) rev); simpl.
  - assert (E : strip out = rev) by (apply Hiff; reflexivity).
    repeat split; try congruence; try discriminate.
  - assert (N : strip out <> rev) by (intros E; apply Hiff in E; discriminate).
    repeat split; try congruence; try discriminate.
    intros Hs ->. exfalso. apply N. rewrite strip_app_nl. exact Hs.
Qed.

Lemma should_edit_iff_merge_base_differs_witness :
  coherent_should_edit (Fixture.repo "") initial /\
  check_output (Fixture.repo "") ["git"; "merge-base"; "a1"; OLD_UPSTREAM]
    = Some ("a1" +:+ nl) /\
  (should_edit (Fixture.repo "") "a1" initial).1 = Ok false.
Proof.
  split; [apply coherent_should_edit_initial|]. split; [reflexivity|].
  apply (should_edit_iff_merge_base_differs (Fixture.repo "") initial "a1" ("a1" +:+ nl));
    [apply coherent_should_edit_initial | reflexivity | reflexivity | reflexivity].
Defined.

(** ** The rewrite-map reader *)

(** C8 (amended): [map_to_filtered rev] is [None] when [../map/<rev>] is
    absent.  When the file is there its contents are stripped and cut at
    newlines: a single piece is returned (so a hash followed by a newline
    gives the hash, and an empty file gives the empty string, without an
    error), two pieces or more raise a [RuntimeError] whose message holds the
    path and the list of pieces. *)
Theorem map_to_filtered_cases (w : World) (rev : string) :
  let mapfile := "../map/" +:+ rev in
  (files w !! mapfile = None -> map_to_filtered w rev = Ok None) /\
  (forall content l,
     files w !! mapfile = Some content -> split newline (strip content) = [l] ->
     map_to_filtered w rev = Ok (Some l)) /\
  (forall h,
     files w !! mapfile = Some (h +:+ nl) -> strip h = h -> split newline h = [h] ->
     map_to_filtered w rev = Ok (Some h)) /\
  (files w !! mapfile = Some "" -> map_to_filtered w rev = Ok (Some "")) /\
  (forall content l1 l2 ls,
     files w !! mapfile = Some content ->
     split newline (strip content) = l1 :: l2 :: ls ->
     let msg := malformed_message mapfile (l1 :: l2 :: ls) in
     map_to_filtered w rev = Raise (RuntimeError msg) /\
     contains mapfile msg = true /\
     contains (str_list (l1 :: l2 :: ls)) msg = true).
Proof.
  intros mapfile.
  assert (One : forall content l,
            files w !! mapfile = Some content -> split newline (strip content) = [l] ->
            map_to_filtered w rev = Ok (Some l)).
  { intros content l Hf Hs. unfold map_to_filtered. fold mapfile.
    rewrite Hf. fold newline. rewrite Hs. reflexivity. }
  split; [|split; [exact One|split; [|split]]].
  - intros Hf. unfold map_to_filtered. fold mapfile. rewrite Hf. reflexivity.
  - intros h Hf Hs Hl. apply (One (h +:+ nl)); [exact Hf|].
    rewrite strip_app_nl, Hs. exact Hl.
  - intros Hf. apply (One ""); [exact Hf|reflexivity].
  - intros content l1 l2 ls Hf Hs msg. split; [|split].
    + unfold map_to_filtered. fold mapfile. rewrite Hf. fold newline. rewrite Hs.
      reflexivity.
    + apply (contains_app "mapfile ").
    + unfold msg, malformed_message.
      repeat rewrite <- append_assoc. apply contains_suffix.
Qed.

(** ** The cross-history mapper *)

Section Mapper.
Variable w : World.
Variables rev out date email : string.
Variable t : Z.
Variable out2 : string.
Hypothesis Hshow : check_output w (show_cmd rev) = Some out.
Hypothesis Hsplit : split1 " " (strip out) = [date; email].
Hypothesis Hint : int date = Some t.
Hypothesis Hlog : check_output w (log_cmd email date (str (t + 1))) = Some out2.

Lemma commit_meta_shown : commit_meta w rev = Some (t, email).
Proof. unfold commit_meta. rewrite Hshow, Hsplit, Hint. reflexivity. Qed.

(** The body, once the two queries have answered. *)
Lemma body_after_log :
  map_to_new_upstream_body w rev =
    let new_upstream_revs := split newline (strip out2) in
    if (1 <? length new_upstream_revs)%nat then
      Raise (RuntimeError (ambiguity_message rev))
    else
      let no_match :=
        let? out := subprocess_check_output w (merge_base_cmd rev) in
        if String.eqb (strip out) rev then Raise (RuntimeError (missing_message rev))
        else Ok None in
      match new_upstream_revs with
      | [] => no_match
      | r0 :: _ => if String.eqb r0 "" then no_match else Ok (Some r0)
      end.
Proof.
  unfold map_to_new_upstream_body, subprocess_check_output at 1.
  unfold show_cmd in Hshow. rewrite Hshow. cbn [rbind].
  rewrite Hsplit, Hint.
  unfold subprocess_check_output at 1.
  unfold log_cmd in Hlog. rewrite Hlog. cbn [rbind]. reflexivity.
Qed.

Lemma body_ambiguous :
  (1 < length (split newline (strip out2)))%nat ->
  map_to_new_upstream_body w rev = Raise (RuntimeError (ambiguity_message rev)).
Proof.
  intros Hlen. rewrite body_after_log. cbv zeta.
  apply Nat.ltb_lt in Hlen. rewrite Hlen. reflexivity.
Qed.

Lemma body_single h :
  split newline (strip out2) = [h] -> h <> "" ->
  map_to_new_upstream_body w rev = Ok (Some h).
Proof.
  intros Hs Hne. rewrite body_after_log. cbv zeta. rewrite Hs. cbn [length Nat.ltb Nat.leb].
  apply String.eqb_neq in Hne. rewrite Hne. reflexivity.
Qed.

Lemma body_no_candidate out3 :
  strip out2 = "" ->
  check_output w (merge_base_cmd rev) = Some out3 ->
  map_to_new_upstream_body w rev =
    if String.eqb (strip out3) rev then Raise (RuntimeError (missing_message rev))
    else Ok None.
Proof.
  intros Hs Hmb. rewrite body_after_log. cbv zeta. rewrite Hs.
  unfold subprocess_check_output. rewrite Hmb. reflexivity.
Qed.

End Mapper.

Lemma map_to_new_upstream_raises w rev st e :
  coherent_map_to_new_upstream w st ->
  map_to_new_upstream_body w rev = Raise e ->
  map_to_new_upstream w rev st = (Raise e, st).
Proof.
  intros Hc Hb. rewrite map_to_new_upstream_eq.
  destruct (pyfscache w); [|rewrite Hb; reflexivity].
  destruct (cache_map_to_new_upstream st !! rev) as [v|] eqn:E.
  - apply Hc in E. congruence.
  - rewrite Hb. reflexivity.
Qed.

Lemma coherent_map_set_should_edit w c st :
  coherent_map_to_new_upstream w st ->
  coherent_map_to_new_upstream w (set_cache_should_edit c st).
Proof. intros Hc r v. apply Hc. Qed.

Lemma ambiguity_message_contains rev :
  contains rev (ambiguity_message rev) = true /\
  contains NEW_UPSTREAM (ambiguity_message rev) = true.
Proof.
  split.
  - apply (contains_app "Revision ").
  - unfold ambiguity_message.
    pose proof (contains_app
      (("Revision " +:+ rev) +:+ " has more than one corresponding rev in new upstream, ")
      NEW_UPSTREAM ".  Maybe (author email, date) is not unique?") as H.
    rewrite !append_assoc in H. exact H.
Qed.

Lemma missing_message_contains rev :
  contains rev (missing_message rev) = true /\
  contains OLD_UPSTREAM (missing_message rev) = true /\
  contains NEW_UPSTREAM (missing_message rev) = true.
Proof.
  unfold missing_message. repeat split.
  - apply (contains_app "Couldn't map_to_new_upstream revision ").
  - pose proof (contains_app (("Couldn't map_to_new_upstream revision " +:+ rev) +:+ " from ")
      OLD_UPSTREAM (" to " +:+ NEW_UPSTREAM +:+ ".")) as H.
    rewrite !append_assoc in H. exact H.
  - pose proof (contains_app
      (((("Couldn't map_to_new_upstream revision " +:+ rev) +:+ " from ") +:+ OLD_UPSTREAM)
       +:+ " to ") NEW_UPSTREAM ".") as H.
    rewrite !append_assoc in H. exact H.
Qed.

(** C2 (amended): when the log of the new upstream line lists more than one
    candidate for [rev], [map_to_new_upstream rev] raises a [RuntimeError]
    and records nothing; the message names the offending commit and the new
    upstream ref, and is the same whatever the number of candidates. *)
Theorem map_to_new_upstream_ambiguous
    (w : World) (st : State) (rev out date email : string) (t : Z) (out2 : string) :
  coherent_map_to_new_upstream w st ->
  check_output w (show_cmd rev) = Some out ->
  split1 " " (strip out) = [date; email] ->
  int date = Some t ->
  check_output w (log_cmd email date (str (t + 1))) = Some out2 ->
  (1 < length (split newline (strip out2)))%nat ->
  map_to_new_upstream w rev st = (Raise (RuntimeError (ambiguity_message rev)), st) /\
  contains rev (ambiguity_message rev) = true /\
  contains NEW_UPSTREAM (ambiguity_message rev) = true.
Proof.
  intros Hc Hshow Hsplit Hint Hlog Hlen. split.
  - apply map_to_new_upstream_raises; [exact Hc|].
    exact (body_ambiguous w rev out date email t out2 Hshow Hsplit Hint Hlog Hlen).
  - apply ambiguity_message_contains.
Qed.

Lemma map_to_new_upstream_ambiguous_witness :
  (1 < length (split newline (strip ("b3" +:+ nl +:+ "b2" +:+ nl))))%nat /\
  map_to_new_upstream (Fixture.repo "") "f1" initial
    = (Raise (RuntimeError (ambiguity_message "f1")), initial).
Proof.
  split; [vm_compute; lia|].
  apply (map_to_new_upstream_ambiguous (Fixture.repo "") initial "f1"
           ("1399980000 frank@example.com" +:+ nl) "1399980000" "frank@example.com"
           1399980000 ("b3" +:+ nl +:+ "b2" +:+ nl));
    [apply coherent_map_to_new_upstream_initial | reflexivity | reflexivity
    | reflexivity | reflexivity | vm_compute; lia].
Defined.

(** C2 as stated fails: with two candidates for [f1] the error raised does
    not hold the candidate count. *)
Lemma ambiguity_error_lacks_candidate_count :
  check_output (Fixture.repo "") (log_cmd "frank@example.com" "1399980000" "1399980001")
    = Some ("b3" +:+ nl +:+ "b2" +:+ nl) /\
  length (split newline (strip ("b3" +:+ nl +:+ "b2" +:+ nl))) = 2%nat /\
  (map_to_new_upstream (Fixture.repo "") "f1" initial).1
    = Raise (RuntimeError (ambiguity_message "f1")) /\
  contains (str 2) (ambiguity_message "f1") = false.
Proof. vm_compute. repeat split; reflexivity. Qed.

(** C3: when the log lists no candidate for [rev], a merge-base query of its
    own decides: [map_to_new_upstream rev] raises the missing-correspondence
    error, naming both upstream refs, exactly when [rev] is on the old
    upstream line, and returns [None] exactly when it is not; the store of
    [should_edit] has no part in the answer. *)
Theorem map_to_new_upstream_no_candidate
    (w : World) (st : State) (rev out date email : string) (t : Z) (out2 out3 : string) :
  coherent_map_to_new_upstream w st ->
  check_output w (show_cmd rev) = Some out ->
  split1 " " (strip out) = [date; email] ->
  int date = Some t ->
  check_output w (log_cmd email date (str (t + 1))) = Some out2 ->
  strip out2 = "" ->
  check_output w (merge_base_cmd rev) = Some out3 ->
  ((map_to_new_upstream w rev st).1 = Raise (RuntimeError (missing_message rev))
     <-> on_old_upstream w rev) /\
  ((map_to_new_upstream w rev st).1 = Ok None <-> ~ on_old_upstream w rev) /\
  contains OLD_UPSTREAM (missing_message rev) = true /\
  contains NEW_UPSTREAM (missing_message rev) = true /\
  (forall c, (map_to_new_upstream w rev (set_cache_should_edit c st)).1
             = (map_to_new_upstream w rev st).1).
Proof.
  intros Hc Hshow Hsplit Hint Hlog Hzero Hmb.
  pose proof (body_no_candidate w rev out date email t out2 Hshow Hsplit Hint Hlog
                out3 Hzero Hmb) as Hbody.
  assert (Hon : on_old_upstream w rev <-> strip out3 = rev).
  { unfold on_old_upstream. split.
    - intros (o & Ho & Hs). congruence.
    - intros Hs. exists out3. split; assumption. }
  assert (Hiff : String.eqb (strip out3) rev = true <-> strip out3 = rev)
    by apply String.eqb_eq.
  rewrite (map_to_new_upstream_result w rev st Hc), Hbody.
  repeat split.
  - destruct (String.eqb (strip out3) rev); [intros _; tauto | discriminate].
  - intros H. apply Hon, Hiff in H. rewrite H. reflexivity.
  - destruct (String.eqb (strip out3) rev); [discriminate|].
    intros _ H. apply Hon, Hiff in H. discriminate.
  - intros Hn. destruct (String.eqb (strip out3) rev); [|reflexivity].
    exfalso. apply Hn, Hon, Hiff. reflexivity.
  - exact (proj1 (proj2 (missing_message_contains rev))).
  - exact (proj2 (proj2 (missing_message_contains rev))).
  - intros c.
    rewrite (map_to_new_upstream_result w rev _ (coherent_map_set_should_edit w c st Hc)).
    exact Hbody.
Qed.

Lemma coherent_map_to_new_upstream_stale w :
  coherent_map_to_new_upstream w Fixture.stale.
Proof. intros rev b. simpl. rewrite lookup_empty. discriminate. Qed.

Lemma map_to_new_upstream_no_candidate_witness :
  on_old_upstream (Fixture.repo "") "e1" /\
  (map_to_new_upstream (Fixture.repo "") "e1" Fixture.stale).1
    = Raise (RuntimeError (missing_message "e1")) /\
  ~ on_old_upstream (Fixture.repo "") "d1" /\
  (map_to_new_upstream (Fixture.repo "") "d1" initial).1 = Ok None.
Proof.
  assert (He : on_old_upstream (Fixture.repo "") "e1")
    by (exists ("e1" +:+ nl); split; reflexivity).
  assert (Hd : ~ on_old_upstream (Fixture.repo "") "d1")
    by (intros (o & Ho & Hs); vm_compute in Ho; injection Ho as <-; discriminate Hs).
  split; [exact He|]. split; [|split; [exact Hd|]].
  - exact (proj2 (proj1
      (map_to_new_upstream_no_candidate (Fixture.repo "") Fixture.stale "e1"
         ("1399970000 erin@example.com" +:+ nl) "1399970000" "erin@example.com"
         1399970000 "" ("e1" +:+ nl)
         (coherent_map_to_new_upstream_stale _)
         eq_refl eq_refl eq_refl eq_refl eq_refl eq_refl)) He).
  - exact (proj2 (proj1 (proj2
      (map_to_new_upstream_no_candidate (Fixture.repo "") initial "d1"
         ("1400000600 dave@example.com" +:+ nl) "1400000600" "dave@example.com"
         1400000600 "" ("a1" +:+ nl)
         (coherent_map_to_new_upstream_initial _)
         eq_refl eq_refl eq_refl eq_refl eq_refl eq_refl))) Hd).
Defined.

(** C1 (amended): for a commit [c] on the old upstream line whose metadata and
    log queries answer, [map_to_new_upstream c] is never [None]: with exactly
    one candidate it returns that commit, and when the log honours its filter
    that commit has the author email of [c] and a time between the time of
    [c] and one second later; with no candidate or several it raises. *)
Theorem map_to_new_upstream_on_old_upstream
    (w : World) (st : State) (c out date email : string) (t : Z) (out2 : string) :
  coherent_map_to_new_upstream w st ->
  on_old_upstream w c ->
  check_output w (show_cmd c) = Some out ->
  split1 " " (strip out) = [date; email] ->
  int date = Some t ->
  check_output w (log_cmd email date (str (t + 1))) = Some out2 ->
  commit_meta w c = Some (t, email) /\
  (map_to_new_upstream w c st).1 <> Ok None /\
  (forall h, split newline (strip out2) = [h] -> h <> "" ->
     (map_to_new_upstream w c st).1 = Ok (Some h) /\
     (log_honours_filter w ->
      exists t', commit_meta w h = Some (t', email) /\ t <= t' <= t + 1)) /\
  (strip out2 = "" ->
     (map_to_new_upstream w c st).1 = Raise (RuntimeError (missing_message c))) /\
  ((1 < length (split newline (strip out2)))%nat ->
     (map_to_new_upstream w c st).1 = Raise (RuntimeError (ambiguity_message c))).
Proof.
  intros Hc (out3 & Hmb & Hon) Hshow Hsplit Hint Hlog.
  rewrite (map_to_new_upstream_result w c st Hc).
  assert (Hzero : strip out2 = "" ->
            map_to_new_upstream_body w c = Raise (RuntimeError (missing_message c))).
  { intros Hz.
    rewrite (body_no_candidate w c out date email t out2 Hshow Hsplit Hint Hlog
               out3 Hz Hmb).
    apply String.eqb_eq in Hon. rewrite Hon. reflexivity. }
  split; [exact (commit_meta_shown w c out date email t Hshow Hsplit Hint)|].
  split; [|split; [|split]].
  - rewrite (body_after_log w c out date email t out2 Hshow Hsplit Hint Hlog). cbv zeta.
    destruct (1 <? length (split newline (strip out2)))%nat eqn:Hlen; [discriminate|].
    destruct (split newline (strip out2)) as [|r0 rs] eqn:Hs.
    + unfold subprocess_check_output. rewrite Hmb. cbn [rbind].
      apply String.eqb_eq in Hon. rewrite Hon. discriminate.
    + destruct (String.eqb r0 ""); [|discriminate].
      unfold subprocess_check_output. rewrite Hmb. cbn [rbind].
      apply String.eqb_eq in Hon. rewrite Hon. discriminate.
  - intros h Hs Hne. split.
    + exact (body_single w c out date email t out2 Hshow Hsplit Hint Hlog h Hs Hne).
    + intros Hcontract.
      destruct (Hcontract email date (str (t + 1)) out2 h Hlog) as (t' & lo & hi & Hm & Hlo & Hhi & Hb).
      * rewrite Hs. apply list_elem_of_here.
      * exact Hne.
      * exists t'. split; [exact Hm|].
        rewrite int_str in Hhi. congruence.
  - exact Hzero.
  - exact (body_ambiguous w c out date email t out2 Hshow Hsplit Hint Hlog).
Qed.

(** The fixture's log answers honour the contract. *)
Lemma answer_Some table argv out :
  Fixture.answer table argv = Some out -> (argv, out) ∈ table.
Proof.
  unfold Fixture.answer. induction table as [|[k v] table IH]; [discriminate|].
  cbn [find]. case_bool_decide as Hk.
  - intros [= <-]. cbn in Hk. subst k. apply list_elem_of_here.
  - intros H. apply list_elem_of_further, IH, H.
Qed.

Lemma fixture_log_honours_filter input : log_honours_filter (Fixture.repo input).
Proof.
  intros email since until out h Hout Hin Hne.
  apply answer_Some in Hout.
  unfold Fixture.commands in Hout.
  repeat (apply elem_of_cons in Hout as [Hout|Hout]);
    [..|apply elem_of_nil in Hout; contradiction];
    try discriminate Hout.
  all: injection Hout as -> -> -> ->.
  all: vm_compute in Hin.
  all: repeat (apply elem_of_cons in Hin as [Hin|Hin]);
         [..|apply elem_of_nil in Hin; contradiction]; subst h; try congruence.
  all: eexists _, _, _; repeat split; try (vm_compute; reflexivity); vm_compute; congruence.
Qed.

Lemma map_to_new_upstream_on_old_upstream_witness :
  on_old_upstream (Fixture.repo "") "a1" /\
  log_honours_filter (Fixture.repo "") /\
  (map_to_new_upstream (Fixture.repo "") "a1" initial).1 = Ok (Some "b1") /\
  exists t', commit_meta (Fixture.repo "") "b1" = Some (t', "alice@example.com") /\
             1400000000 <= t' <= 1400000000 + 1.
Proof.
  assert (Ha : on_old_upstream (Fixture.repo "") "a1")
    by (exists ("a1" +:+ nl); split; reflexivity).
  destruct (map_to_new_upstream_on_old_upstream (Fixture.repo "") initial "a1"
              ("1400000000 alice@example.com" +:+ nl) "1400000000" "alice@example.com"
              1400000000 ("b1" +:+ nl)
              (coherent_map_to_new_upstream_initial _) Ha
              eq_refl eq_refl eq_refl eq_refl) as (_ & _ & Hone & _).
  assert (Hne : "b1" <> "") by discriminate.
  destruct (Hone "b1" eq_refl Hne) as [Hr Hm].
  split; [exact Ha|]. split; [apply fixture_log_honours_filter|].
  split; [exact Hr|]. apply Hm, fixture_log_honours_filter.
Defined.

(** C1 as stated fails: [e1] lies on the old upstream line and the call
    raises instead of returning a commit. *)
Lemma old_upstream_commit_without_counterpart :
  on_old_upstream (Fixture.repo "") "e1" /\
  (map_to_new_upstream (Fixture.repo "") "e1" initial).1
    = Raise (RuntimeError (missing_message "e1")) /\
  ~ exists h, (map_to_new_upstream (Fixture.repo "") "e1" initial).1 = Ok (Some h).
Proof.
  split; [exists ("e1" +:+ nl); split; reflexivity|].
  split; [reflexivity|].
  intros [h Hh]. vm_compute in Hh. discriminate Hh.
Qed.

Lemma map_to_filtered_cases_witness :
  map_to_filtered (Fixture.repo "") "zz" = Ok None /\
  map_to_filtered (Fixture.repo "") "b1" = Ok (Some "b1f") /\
  map_to_filtered (Fixture.repo "") "two"
    = Raise (RuntimeError (malformed_message "../map/two" ["x1"; "y1"])).
Proof.
  split; [|split].
  - destruct (map_to_filtered_cases (Fixture.repo "") "zz") as (H & _).
    apply H. reflexivity.
  - destruct (map_to_filtered_cases (Fixture.repo "") "b1") as (_ & _ & H & _).
    apply (H "b1f"); reflexivity.
  - destruct (map_to_filtered_cases (Fixture.repo "") "two") as (_ & _ & _ & _ & H).
    destruct (H ("x1" +:+ nl +:+ "y1" +:+ nl) "x1" "y1" []) as (Hr & _);
      [reflexivity | reflexivity | exact Hr].
Defined.

(** C8 as stated fails: an empty map file does not hold exactly one line, and
    no error is raised for it. *)
Lemma empty_map_file_accepted :
  files (Fixture.repo "") !! "../map/blank" = Some "" /\
  line_count "" = 0%nat /\
  map_to_filtered (Fixture.repo "") "blank" = Ok (Some "") /\
  forall e, map_to_filtered (Fixture.repo "") "blank" <> Raise e.
Proof.
  split; [reflexivity|]. split; [reflexivity|]. split; [reflexivity|].
  intros e H. vm_compute in H. discriminate H.
Qed.

(** ** The tree rewriter and the parent rewriter *)

(** Membership in a list written out: one case per element. *)
Ltac mem_inv H :=
  repeat (apply elem_of_cons in H as [H|H]);
  try (apply elem_of_nil in H; contradiction);
  try discriminate H.

Lemma should_edit_again w rev st b :
  (should_edit w rev st).1 = Ok b ->
  should_edit w rev (should_edit w rev st).2 = (Ok b, (should_edit w rev st).2).
Proof.
  rewrite !should_edit_eq.
  destruct (pyfscache w).
  - destruct (cache_should_edit st !! rev) as [v|] eqn:E.
    + cbn [fst snd]. intros [= ->]. rewrite E. reflexivity.
    + destruct (should_edit_body w rev) as [v|e] eqn:Eb; cbn [fst snd]; [|discriminate].
      intros [= ->]. cbn [cache_should_edit set_cache_should_edit].
      rewrite lookup_insert_eq. reflexivity.
  - cbn [fst snd]. intros Hb. rewrite Hb. reflexivity.
Qed.

Lemma first_mapped_parent_frame w parents fallback st :
  let st' := (first_mapped_parent w parents fallback st).2 in
  stdout st' = stdout st /\ effects st' = effects st /\
  cache_should_edit st' = cache_should_edit st.
Proof.
  revert st. induction parents as [|p rest IH]; intros st; [easy|].
  cbn [first_mapped_parent]. unfold bind.
  pose proof (map_to_new_upstream_frame w p st) as Hf.
  destruct (map_to_new_upstream w p st) as [[[t|]|e] st1]; cbn [snd] in Hf |- *.
  - exact Hf.
  - destruct (IH st1) as (H1 & H2 & H3). destruct Hf as (F1 & F2 & F3).
    cbv zeta. rewrite H1, H2, H3. easy.
  - exact Hf.
Qed.

Lemma first_mapped_parent_result w parents fallback st :
  coherent_map_to_new_upstream w st ->
  (first_mapped_parent w parents fallback st).1 = reference_parent w parents fallback.
Proof.
  revert st. induction parents as [|p rest IH]; intros st Hc; [reflexivity|].
  cbn [first_mapped_parent reference_parent]. unfold bind.
  pose proof (map_to_new_upstream_result w p st Hc) as Hr.
  pose proof (map_to_new_upstream_coherent w p st Hc) as Hc'.
  destruct (map_to_new_upstream w p st) as [r st1]. cbn [fst snd] in Hr, Hc'.
  rewrite <- Hr. destruct r as [[t|]|e]; [reflexivity | | reflexivity].
  apply IH, Hc'.
Qed.

Lemma chosen_reference_parent w parents p0 ref :
  head parents = Some p0 ->
  chosen_reference w parents ref -> reference_parent w parents p0 = Ok ref.
Proof.
  intros Hhd [(i & p & Hi & Hp & Hbefore) | [Hnone Hfirst]].
  - clear Hhd. revert i Hi Hbefore.
    induction parents as [|q rest IH]; intros i Hi Hbefore; [destruct i; discriminate|].
    cbn [reference_parent]. destruct i as [|i].
    + injection Hi as ->. rewrite Hp. reflexivity.
    + rewrite (Hbefore 0%nat q); [|lia|reflexivity].
      apply (IH i); [exact Hi|].
      intros j q' Hj Hq'. apply (Hbefore (S j) q'); [lia|exact Hq'].
  - assert (ref = p0) as -> by congruence. clear Hhd Hfirst.
    induction parents as [|q rest IH]; [reflexivity|].
    cbn [reference_parent]. rewrite (Hnone q); [|apply list_elem_of_here].
    apply IH. intros q' Hq'. apply Hnone, list_elem_of_further, Hq'.
Qed.

Lemma publish_run w rev parent index_file st :
  let run := bind (subprocess_check_call w (build_cmd rev parent index_file))
               (fun _ => os_rename w (index_file +:+ ".new") index_file) st in
  run.1 = publish_result w rev parent index_file /\
  effects run.2 = (effects st ++ publish_effects w rev parent index_file)%list /\
  stdout run.2 = stdout st /\
  cache_should_edit run.2 = cache_should_edit st /\
  cache_map_to_new_upstream run.2 = cache_map_to_new_upstream st.
Proof.
  unfold bind, subprocess_check_call, os_rename, publish_result, publish_effects.
  destruct (check_call w (build_cmd rev parent index_file)); [|easy].
  cbn [effects stdout cache_should_edit cache_map_to_new_upstream].
  destruct (rename_ok w (index_file +:+ ".new") index_file);
    cbn [fst snd effects stdout cache_should_edit cache_map_to_new_upstream];
    rewrite <- ?app_assoc; easy.
Qed.

Lemma tree_parent_truthy ref entry :
  (if truthy entry then default ref entry else ref) = tree_parent ref entry.
Proof. destruct entry as [h|]; [|reflexivity]. cbn. destruct (String.eqb h ""); reflexivity. Qed.

(** One run of [filter_index] on a commit to edit that has a parent. *)
Lemma filter_index_edit w rev st out p0 ps :
  (should_edit w rev st).1 = Ok true ->
  check_output w (rev_list_cmd rev) = Some out ->
  tail (split_ws (strip out)) = p0 :: ps ->
  let st1 := (should_edit w rev st).2 in
  let run := filter_index w rev st in
  match (first_mapped_parent w (p0 :: ps) p0 st1).1 with
  | Raise e => run.1 = Raise e /\ effects run.2 = effects st
  | Ok ref =>
      match map_to_filtered w ref with
      | Raise e => run.1 = Raise e /\ effects run.2 = effects st
      | Ok entry =>
          match environ w !! "GIT_INDEX_FILE" with
          | None => run.1 = Raise (KeyError "GIT_INDEX_FILE") /\ effects run.2 = effects st
          | Some index_file =>
              run.1 = publish_result w rev (tree_parent ref entry) index_file /\
              effects run.2
                = (effects st ++ publish_effects w rev (tree_parent ref entry) index_file)%list
          end
      end
  end.
Proof.
  intros Hedit Hout Hps st1 run. subst st1 run.
  pose proof (should_edit_frame w rev st) as (_ & Fe & _).
  unfold filter_index, time_decorator, bind.
  destruct (should_edit w rev st) as [r st1]. cbn [fst snd] in *. subst r.
  cbn [negb]. unfold lift, subprocess_check_output.
  unfold rev_list_cmd in Hout. rewrite Hout. cbv beta iota. rewrite Hps. cbv beta iota.
  pose proof (first_mapped_parent_frame w (p0 :: ps) p0 st1) as (_ & Fe2 & _).
  destruct (first_mapped_parent w (p0 :: ps) p0 st1) as [[ref|e] st2];
    cbv beta iota; cbn [fst snd] in *; [|split; [reflexivity|congruence]].
  destruct (map_to_filtered w ref) as [entry|e];
    cbv beta iota; cbn [fst snd]; [|split; [reflexivity|congruence]].
  destruct (environ w !! "GIT_INDEX_FILE") as [index_file|];
    [|split; [reflexivity|cbn; congruence]].
  rewrite tree_parent_truthy.
  destruct (publish_run w rev (tree_parent ref entry) index_file st2) as (H1 & H2 & _).
  split; [exact H1|]. rewrite <- Fe, <- Fe2. exact H2.
Qed.

(** The runs of [filter_index] that stop before the parents are mapped. *)
Lemma filter_index_early w rev st :
  let st1 := (should_edit w rev st).2 in
  match (should_edit w rev st).1 with
  | Raise e => filter_index w rev st = (Raise e, st1)
  | Ok false => filter_index w rev st = (Ok tt, st1)
  | Ok true =>
      match check_output w (rev_list_cmd rev) with
      | None => filter_index w rev st = (Raise (CalledProcessError (rev_list_cmd rev)), st1)
      | Some out =>
          match tail (split_ws (strip out)) with
          | [] => filter_index w rev st = (Raise IndexError, st1)
          | _ :: _ => True
          end
      end
  end.
Proof.
  unfold filter_index, time_decorator, bind.
  destruct (should_edit w rev st) as [[[|]|e] st1]; cbn [fst snd negb]; try reflexivity.
  unfold lift, subprocess_check_output, rev_list_cmd.
  destruct (check_output w _) as [out|]; cbv beta iota; [|reflexivity].
  destruct (tail (split_ws (strip out))); [reflexivity|exact I].
Qed.


(** The shell command reads the tree of [parent] and writes the index at
    [new_index_file]. *)
Lemma sh_cmd_reads_and_writes rev parent new_index_file :
  contains ("<(git ls-tree -r " +:+ parent +:+ " | grep -v") (sh_cmd rev parent new_index_file)
    = true /\
  contains ("GIT_INDEX_FILE=" +:+ new_index_file +:+ " git update-index --index-info")
    (sh_cmd rev parent new_index_file) = true.
Proof.
  unfold sh_cmd. split.
  - pose proof (contains_app
      (nl +:+ "    cat <(git ls-tree -r " +:+ rev +:+ " | sed -e $'s:\t:\tclang/:') \"
       +:+ nl +:+ "        ")
      ("<(git ls-tree -r " +:+ parent +:+ " | grep -v")
      (" $'\tclang/') | \" +:+ nl +:+ "    GIT_INDEX_FILE=" +:+ new_index_file
       +:+ " git update-index --index-info" +:+ nl +:+ "  ")) as H.
    repeat rewrite append_assoc in H. exact H.
  - pose proof (contains_app
      (nl +:+ "    cat <(git ls-tree -r " +:+ rev +:+ " | sed -e $'s:\t:\tclang/:') \"
       +:+ nl +:+ "        <(git ls-tree -r " +:+ parent +:+ " | grep -v $'\tclang/') | \"
       +:+ nl +:+ "    ")
      ("GIT_INDEX_FILE=" +:+ new_index_file +:+ " git update-index --index-info")
      (nl +:+ "  ")) as H.
    repeat rewrite append_assoc in H. exact H.
Qed.

(** C5: for a commit to edit, the reference parent of [filter_index] is the
    correspondence of the first original parent, in order, that has one, and
    the first original parent itself when none has; when the rewrite map
    holds a hash for the reference parent that hash replaces it; the shell
    command reads the tree of the parent so chosen. *)
Theorem filter_index_reference_parent
    (w : World) (st : State) (rev out p0 : string) (ps : list string)
    (index_file ref : string) (entry : option string) :
  coherent_map_to_new_upstream w st ->
  (should_edit w rev st).1 = Ok true ->
  check_output w (rev_list_cmd rev) = Some out ->
  tail (split_ws (strip out)) = p0 :: ps ->
  environ w !! "GIT_INDEX_FILE" = Some index_file ->
  chosen_reference w (p0 :: ps) ref ->
  map_to_filtered w ref = Ok entry ->
  let parent := tree_parent ref entry in
  (entry = None -> parent = ref) /\
  (forall h, entry = Some h -> h <> "" -> parent = h) /\
  (filter_index w rev st).1 = publish_result w rev parent index_file /\
  effects (filter_index w rev st).2
    = (effects st ++ publish_effects w rev parent index_file)%list /\
  head (publish_effects w rev parent index_file)
    = Some (Exec ["bash"; "-c"; sh_cmd rev parent (index_file +:+ ".new")]) /\
  contains ("<(git ls-tree -r " +:+ parent +:+ " | grep -v")
    (sh_cmd rev parent (index_file +:+ ".new")) = true.
Proof.
  intros Hc Hedit Hout Hps Henv Hchosen Hentry parent.
  pose proof (filter_index_edit w rev st out p0 ps Hedit Hout Hps) as Hrun.
  cbv zeta in Hrun.
  rewrite (first_mapped_parent_result w (p0 :: ps) p0 _
             (should_edit_keeps_map_coherent w rev st Hc)) in Hrun.
  rewrite (chosen_reference_parent w (p0 :: ps) p0 ref eq_refl Hchosen) in Hrun.
  rewrite Hentry, Henv in Hrun. destruct Hrun as [Hr He].
  split; [intros ->; reflexivity|].
  split.
  { intros h -> Hne. unfold parent, tree_parent.
    apply String.eqb_neq in Hne. rewrite Hne. reflexivity. }
  split; [exact Hr|]. split; [exact He|]. split.
  - unfold publish_effects.
    destruct (check_call w _); [destruct (rename_ok w _ _)|]; reflexivity.
  - exact (proj1 (sh_cmd_reads_and_writes rev parent (index_file +:+ ".new"))).
Qed.

Lemma filter_index_reference_parent_witness :
  (should_edit (Fixture.repo "") "m1" initial).1 = Ok true /\
  chosen_reference (Fixture.repo "") ["c1"; "a1"] "b1" /\
  map_to_filtered (Fixture.repo "") "b1" = Ok (Some "b1f") /\
  effects (filter_index (Fixture.repo "") "m1" initial).2
    = [Exec ["bash"; "-c"; sh_cmd "m1" "b1f" "/tmp/rewrite/t/../index.new"];
       Rename "/tmp/rewrite/t/../index.new" "/tmp/rewrite/t/../index"].
Proof.
  assert (Hch : chosen_reference (Fixture.repo "") ["c1"; "a1"] "b1").
  { left. exists 1%nat, "a1". split; [reflexivity|]. split; [reflexivity|].
    intros j q Hj Hq. destruct j as [|j]; [|lia].
    injection Hq as <-. reflexivity. }
  split; [reflexivity|]. split; [exact Hch|]. split; [reflexivity|].
  destruct (filter_index_reference_parent (Fixture.repo "") initial "m1"
              ("m1 c1 a1" +:+ nl) "c1" ["a1"] "/tmp/rewrite/t/../index" "b1" (Some "b1f")
              (coherent_map_to_new_upstream_initial _)
              eq_refl eq_refl eq_refl eq_refl Hch eq_refl) as (_ & _ & _ & He & _).
  exact He.
Defined.


(** C10: on a commit to edit whose parent list is empty, [filter_index]
    raises [IndexError] at [parents[0]] and does nothing to the index; so a
    successful run on a commit to edit has found at least one parent. *)
Theorem filter_index_needs_a_parent (w : World) (st : State) (rev : string) :
  (should_edit w rev st).1 = Ok true ->
  (forall out,
     check_output w (rev_list_cmd rev) = Some out ->
     tail (split_ws (strip out)) = [] ->
     (filter_index w rev st).1 = Raise IndexError /\
     effects (filter_index w rev st).2 = effects st /\
     stdout (filter_index w rev st).2 = stdout st) /\
  ((filter_index w rev st).1 = Ok tt ->
   exists out p ps,
     check_output w (rev_list_cmd rev) = Some out /\
     tail (split_ws (strip out)) = p :: ps).
Proof.
  intros Hedit.
  pose proof (filter_index_early w rev st) as Hearly. cbv zeta in Hearly.
  pose proof (should_edit_frame w rev st) as (Fo & Fe & _). cbv zeta in Fo, Fe.
  rewrite Hedit in Hearly. split.
  - intros out Hout Hps. rewrite Hout, Hps in Hearly. rewrite Hearly.
    cbn [fst snd]. auto.
  - intros Hok.
    destruct (check_output w (rev_list_cmd rev)) as [out|];
      [|rewrite Hearly in Hok; discriminate Hok].
    destruct (tail (split_ws (strip out))) as [|p ps] eqn:Hps;
      [rewrite Hearly in Hok; discriminate Hok|].
    exists out, p, ps. split; [reflexivity|exact Hps].
Qed.

Lemma filter_index_needs_a_parent_witness :
  (should_edit (Fixture.repo "") "r1" initial).1 = Ok true /\
  tail (split_ws (strip ("r1" +:+ nl))) = [] /\
  (filter_index (Fixture.repo "") "r1" initial).1 = Raise IndexError /\
  effects (filter_index (Fixture.repo "") "r1" initial).2 = [].
Proof.
  split; [reflexivity|]. split; [reflexivity|].
  destruct (filter_index_needs_a_parent (Fixture.repo "") initial "r1" eq_refl)
    as [Hroot _].
  destruct (Hroot ("r1" +:+ nl) eq_refl eq_refl) as (Hr & He & _).
  split; [exact Hr|exact He].
Defined.

Lemma split_ws_app_nl s : split_ws (s +:+ nl) = split_ws s.
Proof.
  induction s as [|c s IH]; [reflexivity|].
  change (String c s +:+ nl) with (String c (s +:+ nl)).
  cbn [split_ws]. rewrite IH.
  destruct (isspace c); [reflexivity|].
  destruct s as [|c' s]; [reflexivity|].
  change (String c' s +:+ nl) with (String c' (s +:+ nl)). cbv iota. reflexivity.
Qed.

Lemma filter_parent_not_edited w rev st :
  (should_edit w rev st).1 = Ok false ->
  filter_parent w rev st = print (stdin w) (should_edit w rev st).2.
Proof.
  intros Hedit. unfold filter_parent, time_decorator, bind.
  destruct (should_edit w rev st) as [r st1]. cbn [fst snd] in *. subst r. reflexivity.
Qed.

(** C7: on a commit that is not to be edited, [filter_index] returns at once:
    it runs no command, renames nothing and prints nothing, and
    [filter_parent] prints its standard input as it is (with the newline of
    [print]), so the same parent list.  Neither changes the state beyond the
    cached classification of the commit, and run again they change nothing
    ([filter_parent] echoing its input again). *)
Theorem not_edited_is_noop (w : World) (st : State) (rev : string) :
  (should_edit w rev st).1 = Ok false ->
  let st1 := (should_edit w rev st).2 in
  filter_index w rev st = (Ok tt, st1) /\
  effects st1 = effects st /\ stdout st1 = stdout st /\
  cache_map_to_new_upstream st1 = cache_map_to_new_upstream st /\
  filter_index w rev st1 = (Ok tt, st1) /\
  (filter_parent w rev st).1 = Ok tt /\
  stdout (filter_parent w rev st).2 = stdout st +:+ stdin w +:+ nl /\
  split_ws (stdin w +:+ nl) = split_ws (stdin w) /\
  effects (filter_parent w rev st).2 = effects st /\
  cache_should_edit (filter_parent w rev st).2 = cache_should_edit st1 /\
  cache_map_to_new_upstream (filter_parent w rev st).2 = cache_map_to_new_upstream st /\
  filter_parent w rev st1 = print (stdin w) st1.
Proof.
  intros Hedit st1.
  pose proof (filter_index_early w rev st) as Hearly. cbv zeta in Hearly.
  rewrite Hedit in Hearly.
  pose proof (should_edit_frame w rev st) as (Fo & Fe & Fm). cbv zeta in Fo, Fe, Fm.
  pose proof (should_edit_again w rev st false Hedit) as Hagain.
  fold st1 in Hearly, Fo, Fe, Fm, Hagain.
  assert (Hedit1 : (should_edit w rev st1).1 = Ok false) by (rewrite Hagain; reflexivity).
  assert (Hst1 : (should_edit w rev st1).2 = st1) by (rewrite Hagain; reflexivity).
  split; [exact Hearly|]. split; [exact Fe|]. split; [exact Fo|]. split; [exact Fm|].
  split.
  { pose proof (filter_index_early w rev st1) as H1. cbv zeta in H1.
    rewrite Hedit1, Hst1 in H1. exact H1. }
  rewrite (filter_parent_not_edited w rev st Hedit). fold st1.
  cbn [print fst snd stdout effects cache_should_edit cache_map_to_new_upstream].
  rewrite Fo, Fe, Fm.
  split; [reflexivity|]. split; [reflexivity|]. split; [apply split_ws_app_nl|].
  split; [reflexivity|]. split; [reflexivity|]. split; [reflexivity|].
  rewrite (filter_parent_not_edited w rev st1 Hedit1), Hst1. reflexivity.
Qed.

Lemma not_edited_is_noop_witness :
  (should_edit (Fixture.repo " -p f1") "a1" initial).1 = Ok false /\
  (filter_index (Fixture.repo " -p f1") "a1" initial).1 = Ok tt /\
  effects (filter_index (Fixture.repo " -p f1") "a1" initial).2 = [] /\
  stdout (filter_parent (Fixture.repo " -p f1") "a1" initial).2 = " -p f1" +:+ nl.
Proof.
  destruct (not_edited_is_noop (Fixture.repo " -p f1") initial "a1" eq_refl)
    as (Hi & He & _ & _ & _ & _ & Ho & _).
  split; [reflexivity|].
  split; [rewrite Hi; reflexivity|].
  split; [rewrite Hi; exact He|exact Ho].
Defined.

(** A correspondence returned by the mapper is never the empty string. *)
Lemma body_Some_nonempty w rev h :
  map_to_new_upstream_body w rev = Ok (Some h) -> h <> "".
Proof.
  unfold map_to_new_upstream_body, rbind, subprocess_check_output.
  intros H.
  repeat match type of H with
         | context [match ?x with _ => _ end] => destruct x eqn:?; try discriminate H
         end.
  injection H as <-. apply String.eqb_neq. assumption.
Qed.

Lemma flag_tagged_cons p ps : flag_tagged (p :: ps) = "-p" :: p :: flag_tagged ps.
Proof. reflexivity. Qed.

(** The loop of [filter_parent] over a flag-tagged parent list. *)
Lemma rewrite_parents_run w ps : forall acc st,
  coherent_map_to_new_upstream w st ->
  Forall (fun p => p <> "-p") ps ->
  (forall p, p ∈ ps -> exists r, map_to_new_upstream_body w p = Ok r) ->
  let run := rewrite_parents w (flag_tagged ps) acc st in
  run.1 = Ok (acc ++ flag_tagged (map (new_parent w) ps))%list /\
  stdout run.2 = stdout st /\ effects run.2 = effects st /\
  cache_should_edit run.2 = cache_should_edit st.
Proof.
  induction ps as [|p ps IH]; intros acc st Hc Hflag Hok.
  - cbn. rewrite app_nil_r. auto.
  - rewrite flag_tagged_cons. cbn [map]. rewrite flag_tagged_cons.
    cbn [rewrite_parents]. change (String.eqb "-p" "-p") with true. cbv iota.
    inversion Hflag as [|? ? Hp Hflag']; subst.
    apply String.eqb_neq in Hp. rewrite Hp. unfold bind.
    pose proof (map_to_new_upstream_result w p st Hc) as Hr.
    pose proof (map_to_new_upstream_coherent w p st Hc) as Hc'.
    pose proof (map_to_new_upstream_frame w p st) as (Fo & Fe & Fs).
    destruct (map_to_new_upstream w p st) as [r st1]. cbn [fst snd] in *.
    destruct (Hok p) as [v Hv]; [apply list_elem_of_here|].
    rewrite Hv in Hr. subst r.
    assert (Hnew : new_parent w p = match v with Some h => h | None => p end)
      by (unfold new_parent; rewrite Hv; reflexivity).
    assert (Htruthy : truthy v = match v with Some _ => true | None => false end).
    { destruct v as [h|]; [|reflexivity].
      apply body_Some_nonempty, String.eqb_neq in Hv. cbn. rewrite Hv. reflexivity. }
    rewrite Htruthy, Hnew. clear Htruthy Hnew.
    assert (Hrest : forall q, q ∈ ps -> exists r, map_to_new_upstream_body w q = Ok r)
      by (intros q Hq; apply Hok, list_elem_of_further, Hq).
    destruct v as [h|]; cbv beta iota.
    + change (default p (Some h)) with h.
      destruct (IH ((acc ++ ["-p"]) ++ [h])%list st1 Hc' Hflag' Hrest)
        as (H1 & H2 & H3 & H4).
      rewrite H1, H2, H3, H4. rewrite <- !app_assoc. cbn [app]. auto.
    + destruct (IH ((acc ++ ["-p"]) ++ [p])%list st1 Hc' Hflag' Hrest)
        as (H1 & H2 & H3 & H4).
      rewrite H1, H2, H3, H4. rewrite <- !app_assoc. cbn [app]. auto.
Qed.

(** C6: on a commit to edit, with a standard input of the form
    [-p p1 -p p2 ...] whose parents all get an answer from the mapper,
    [filter_parent] prints the same flag-tagged list in which each parent
    that has a correspondence is replaced by it and each other parent is
    kept: as many parents, in the same order. *)
Theorem filter_parent_rewrites_parents
    (w : World) (st : State) (rev : string) (ps : list string) :
  coherent_map_to_new_upstream w st ->
  (should_edit w rev st).1 = Ok true ->
  split_ws (strip (stdin w)) = flag_tagged ps ->
  Forall (fun p => p <> "-p") ps ->
  (forall p, p ∈ ps -> exists r, map_to_new_upstream_body w p = Ok r) ->
  let new_parents := map (new_parent w) ps in
  (filter_parent w rev st).1 = Ok tt /\
  stdout (filter_parent w rev st).2
    = stdout st +:+ join " " (flag_tagged new_parents) +:+ nl /\
  length new_parents = length ps /\
  (forall i p, ps !! i = Some p ->
     exists q, new_parents !! i = Some q /\
       (forall t, map_to_new_upstream_body w p = Ok (Some t) -> q = t) /\
       (map_to_new_upstream_body w p = Ok None -> q = p)) /\
  effects (filter_parent w rev st).2 = effects st.
Proof.
  intros Hc Hedit Hin Hflag Hok new_parents.
  pose proof (should_edit_frame w rev st) as (Fo & Fe & _). cbv zeta in Fo, Fe.
  pose proof (should_edit_keeps_map_coherent w rev st Hc) as Hc1.
  unfold filter_parent, time_decorator, bind.
  destruct (should_edit w rev st) as [r st1]. cbn [fst snd] in *. subst r.
  cbn [negb]. rewrite Hin.
  destruct (rewrite_parents_run w ps [] st1 Hc1 Hflag Hok) as (H1 & H2 & H3 & _).
  destruct (rewrite_parents w (flag_tagged ps) [] st1) as [r st2]. cbn [fst snd] in *.
  subst r. cbn [app print fst snd stdout effects].
  split; [reflexivity|]. split; [rewrite H2, Fo; reflexivity|].
  split; [apply length_map|]. split; [|congruence].
  intros i p Hi. exists (new_parent w p). split.
  - unfold new_parents. rewrite list_lookup_fmap, Hi. reflexivity.
  - unfold new_parent. split.
    + intros t ->. reflexivity.
    + intros ->. reflexivity.
Qed.

Lemma filter_parent_rewrites_parents_witness :
  (should_edit (Fixture.repo " -p c1 -p a1") "m1" initial).1 = Ok true /\
  split_ws (strip " -p c1 -p a1") = flag_tagged ["c1"; "a1"] /\
  stdout (filter_parent (Fixture.repo " -p c1 -p a1") "m1" initial).2
    = "-p c1 -p b1" +:+ nl.
Proof.
  split; [reflexivity|]. split; [reflexivity|].
  assert (Hflag : Forall (fun p : string => p <> "-p") ["c1"; "a1"])
    by (repeat constructor; discriminate).
  assert (Hok : forall p, p ∈ ["c1"; "a1"] ->
            exists r, map_to_new_upstream_body (Fixture.repo " -p c1 -p a1") p = Ok r).
  { intros p Hp. mem_inv Hp; subst p; eexists; reflexivity. }
  destruct (filter_parent_rewrites_parents (Fixture.repo " -p c1 -p a1") initial "m1"
              ["c1"; "a1"] (coherent_map_to_new_upstream_initial _)
              eq_refl eq_refl Hflag Hok) as (_ & Ho & _).
  exact Ho.
Defined.


(** * Further properties of the script *)

(** ** The stores of [cache_decorator] *)

(** X1: with [pyfscache], a value returned by [should_edit] or by
    [map_to_new_upstream] is recorded under its argument: the next call with
    that argument returns it and leaves the state as it is, whatever the
    repository answers by then. *)
Theorem cached_answer_is_replayed (w w' : World) (rev : string) (st : State) :
  pyfscache w = true -> pyfscache w' = true ->
  (forall b, (should_edit w rev st).1 = Ok b ->
     should_edit w' rev (should_edit w rev st).2 = (Ok b, (should_edit w rev st).2)) /\
  (forall v, (map_to_new_upstream w rev st).1 = Ok v ->
     map_to_new_upstream w' rev (map_to_new_upstream w rev st).2
       = (Ok v, (map_to_new_upstream w rev st).2)).
Proof.
  intros Hw Hw'. split.
  - intros b. rewrite (should_edit_eq w'), Hw', (should_edit_eq w), Hw.
    destruct (cache_should_edit st !! rev) as [c|] eqn:E; cbn [fst snd].
    + intros [= ->]. rewrite E. reflexivity.
    + destruct (should_edit_body w rev) as [c|e]; cbn [fst snd]; [|discriminate].
      intros [= ->]. cbn [cache_should_edit set_cache_should_edit].
      rewrite lookup_insert_eq. reflexivity.
  - intros v. rewrite (map_to_new_upstream_eq w'), Hw', (map_to_new_upstream_eq w), Hw.
    destruct (cache_map_to_new_upstream st !! rev) as [c|] eqn:E; cbn [fst snd].
    + intros [= ->]. rewrite E. reflexivity.
    + destruct (map_to_new_upstream_body w rev) as [c|e]; cbn [fst snd]; [|discriminate].
      intros [= ->]. cbn [cache_map_to_new_upstream set_cache_map_to_new_upstream].
      rewrite lookup_insert_eq. reflexivity.
Qed.

Lemma cached_answer_is_replayed_witness :
  (map_to_new_upstream (Fixture.repo "") "a1" initial).1 = Ok (Some "b1") /\
  map_to_new_upstream (with_map_entry "a1" "" (Fixture.repo "other")) "a1"
      (map_to_new_upstream (Fixture.repo "") "a1" initial).2
    = (Ok (Some "b1"), (map_to_new_upstream (Fixture.repo "") "a1" initial).2).
Proof.
  split; [reflexivity|].
  destruct (cached_answer_is_replayed (Fixture.repo "")
              (with_map_entry "a1" "" (Fixture.repo "other")) "a1" initial
              eq_refl eq_refl) as [_ H].
  apply H. reflexivity.
Defined.

(** X2: a call of [should_edit] or of [map_to_new_upstream] that raises
    records nothing: the state is left as it was, so the next call asks the
    repository again. *)
Theorem raised_exception_is_not_cached (w : World) (rev : string) (st : State)
    (e : Exception) :
  ((should_edit w rev st).1 = Raise e -> (should_edit w rev st).2 = st) /\
  ((map_to_new_upstream w rev st).1 = Raise e -> (map_to_new_upstream w rev st).2 = st).
Proof.
  split.
  - rewrite should_edit_eq. destruct (pyfscache w); [|reflexivity].
    destruct (cache_should_edit st !! rev); [reflexivity|].
    destruct (should_edit_body w rev); [discriminate|reflexivity].
  - rewrite map_to_new_upstream_eq. destruct (pyfscache w); [|reflexivity].
    destruct (cache_map_to_new_upstream st !! rev); [reflexivity|].
    destruct (map_to_new_upstream_body w rev); [discriminate|reflexivity].
Qed.

Lemma raised_exception_is_not_cached_witness :
  (map_to_new_upstream (Fixture.repo "") "f1" initial).1
    = Raise (RuntimeError (ambiguity_message "f1")) /\
  (map_to_new_upstream (Fixture.repo "") "f1" initial).2 = initial.
Proof.
  split; [reflexivity|].
  apply (proj2 (raised_exception_is_not_cached (Fixture.repo "") "f1" initial
                  (RuntimeError (ambiguity_message "f1")))).
  reflexivity.
Defined.

(** Relations between the state before and the state after that every step
    of the two filters keeps. *)
Section Steps.
Variable w : World.
Variable R : State -> State -> Prop.
Hypothesis R_refl : forall st, R st st.
Hypothesis R_trans : forall st1 st2 st3, R st1 st2 -> R st2 st3 -> R st1 st3.
Hypothesis R_should_edit : forall rev st, R st (should_edit w rev st).2.
Hypothesis R_map : forall rev st, R st (map_to_new_upstream w rev st).2.
Hypothesis R_print : forall st s,
  R st {| cache_should_edit := cache_should_edit st;
          cache_map_to_new_upstream := cache_map_to_new_upstream st;
          stdout := s; effects := effects st |}.
Hypothesis R_effect : forall st l,
  R st {| cache_should_edit := cache_should_edit st;
          cache_map_to_new_upstream := cache_map_to_new_upstream st;
          stdout := stdout st; effects := l |}.

Lemma first_mapped_parent_keeps parents fallback st :
  R st (first_mapped_parent w parents fallback st).2.
Proof.
  revert st. induction parents as [|p rest IH]; intros st; [apply R_refl|].
  cbn [first_mapped_parent]. unfold bind.
  pose proof (R_map p st) as Hm.
  destruct (map_to_new_upstream w p st) as [[[t|]|e] st1]; cbn [snd] in *;
    [exact Hm | | exact Hm].
  eapply R_trans; [exact Hm|apply IH].
Qed.

Lemma rewrite_parents_keeps tokens acc st :
  R st (rewrite_parents w tokens acc st).2.
Proof.
  revert acc st. induction tokens as [|p rest IH]; intros acc st; [apply R_refl|].
  cbn [rewrite_parents]. destruct (String.eqb p "-p"); [apply IH|].
  unfold bind. pose proof (R_map p st) as Hm.
  destruct (map_to_new_upstream w p st) as [[v|e] st1]; cbn [snd] in *; [|exact Hm].
  destruct (truthy v); (eapply R_trans; [exact Hm|apply IH]).
Qed.

Lemma filter_parent_keeps rev st : R st (filter_parent w rev st).2.
Proof.
  unfold filter_parent, time_decorator, bind.
  pose proof (R_should_edit rev st) as Hs.
  destruct (should_edit w rev st) as [[edit|e] st1]; cbn [snd] in *; [|exact Hs].
  destruct edit; cbn [negb].
  - pose proof (rewrite_parents_keeps (split_ws (strip (stdin w))) [] st1) as Hr.
    destruct (rewrite_parents w (split_ws (strip (stdin w))) [] st1) as [[l|e] st2];
      cbn [snd] in *.
    + eapply R_trans; [exact Hs|]. eapply R_trans; [exact Hr|]. apply R_print.
    + eapply R_trans; [exact Hs|exact Hr].
  - eapply R_trans; [exact Hs|]. apply R_print.
Qed.

Lemma filter_index_keeps rev st : R st (filter_index w rev st).2.
Proof.
  unfold filter_index, time_decorator, bind.
  pose proof (R_should_edit rev st) as Hs.
  destruct (should_edit w rev st) as [[edit|e] st1]; cbn [snd] in *; [|exact Hs].
  destruct edit; cbn [negb]; [|exact Hs].
  unfold lift, subprocess_check_output.
  destruct (check_output w _) as [out|]; cbv beta iota; [|exact Hs].
  destruct (tail (split_ws (strip out))) as [|p0 ps]; [exact Hs|].
  pose proof (first_mapped_parent_keeps (p0 :: ps) p0 st1) as Hf.
  destruct (first_mapped_parent w (p0 :: ps) p0 st1) as [[ref|e] st2];
    cbv beta iota; cbn [snd] in *; [|eapply R_trans; eassumption].
  assert (H2 : R st st2) by (eapply R_trans; eassumption).
  destruct (map_to_filtered w ref) as [entry|e]; cbv beta iota; [|exact H2].
  destruct (environ w !! "GIT_INDEX_FILE") as [index_file|]; [|exact H2].
  unfold subprocess_check_call, os_rename.
  destruct (check_call w _); cbn [snd];
    [|eapply R_trans; [exact H2|apply R_effect]].
  destruct (rename_ok w _ _);
    cbn [snd cache_should_edit cache_map_to_new_upstream stdout effects];
    (eapply R_trans; [exact H2|apply R_effect]).
Qed.

End Steps.

Lemma should_edit_grows w rev st : caches_grow st (should_edit w rev st).2.
Proof.
  unfold caches_grow. rewrite should_edit_eq.
  destruct (pyfscache w); [|done].
  destruct (cache_should_edit st !! rev) eqn:E; [done|].
  destruct (should_edit_body w rev); [|done].
  cbn [snd cache_should_edit cache_map_to_new_upstream set_cache_should_edit].
  split; [apply insert_subseteq, E|done].
Qed.

Lemma map_to_new_upstream_grows w rev st :
  caches_grow st (map_to_new_upstream w rev st).2.
Proof.
  unfold caches_grow. rewrite map_to_new_upstream_eq.
  destruct (pyfscache w); [|done].
  destruct (cache_map_to_new_upstream st !! rev) eqn:E; [done|].
  destruct (map_to_new_upstream_body w rev); [|done].
  cbn [snd cache_should_edit cache_map_to_new_upstream set_cache_map_to_new_upstream].
  split; [done|apply insert_subseteq, E].
Qed.

Lemma caches_grow_trans st1 st2 st3 :
  caches_grow st1 st2 -> caches_grow st2 st3 -> caches_grow st1 st3.
Proof. intros [H1 H2] [H3 H4]. split; etrans; eassumption. Qed.

(** X3: the two filters only add to the stores: every entry present before
    a run of [filter_index] or of [filter_parent] is present after it, with
    the same value. *)
Theorem caches_only_grow (w : World) (st : State) (rev : string) :
  caches_grow st (filter_index w rev st).2 /\
  caches_grow st (filter_parent w rev st).2 /\
  (forall r b, cache_should_edit st !! r = Some b ->
     cache_should_edit (filter_index w rev st).2 !! r = Some b /\
     cache_should_edit (filter_parent w rev st).2 !! r = Some b) /\
  (forall r v, cache_map_to_new_upstream st !! r = Some v ->
     cache_map_to_new_upstream (filter_index w rev st).2 !! r = Some v /\
     cache_map_to_new_upstream (filter_parent w rev st).2 !! r = Some v).
Proof.
  assert (Hi : caches_grow st (filter_index w rev st).2).
  { apply (filter_index_keeps w caches_grow); try done.
    - apply caches_grow_trans.
    - apply should_edit_grows.
    - apply map_to_new_upstream_grows. }
  assert (Hp : caches_grow st (filter_parent w rev st).2).
  { apply (filter_parent_keeps w caches_grow); try done.
    - apply caches_grow_trans.
    - apply should_edit_grows.
    - apply map_to_new_upstream_grows. }
  split; [exact Hi|]. split; [exact Hp|].
  destruct Hi as [Hi1 Hi2], Hp as [Hp1 Hp2]. split.
  - intros r b Hr. split; eapply lookup_weaken; eassumption.
  - intros r v Hr. split; eapply lookup_weaken; eassumption.
Qed.

Lemma caches_only_grow_witness :
  cache_should_edit Fixture.stale !! "e1" = Some true /\
  cache_should_edit (filter_index (Fixture.repo "") "a1" Fixture.stale).2 !! "e1"
    = Some true.
Proof.
  split; [reflexivity|].
  destruct (caches_only_grow (Fixture.repo "") Fixture.stale "a1") as (_ & _ & H & _).
  apply (H "e1" true). reflexivity.
Defined.

Lemma map_to_new_upstream_keeps_should_edit_coherent w rev st :
  coherent_should_edit w st -> coherent_should_edit w (map_to_new_upstream w rev st).2.
Proof.
  intros Hc r b. destruct (map_to_new_upstream_frame w rev st) as (_ & _ & ->). apply Hc.
Qed.

(** X4: coherence of the two stores with the repository is an invariant of
    both filters: stores that hold only answers of this repository still do
    after [filter_index] and after [filter_parent]. *)
Theorem coherence_is_kept (w : World) (st : State) (rev : string) :
  coherent_should_edit w st -> coherent_map_to_new_upstream w st ->
  (coherent_should_edit w (filter_index w rev st).2 /\
   coherent_map_to_new_upstream w (filter_index w rev st).2) /\
  (coherent_should_edit w (filter_parent w rev st).2 /\
   coherent_map_to_new_upstream w (filter_parent w rev st).2).
Proof.
  intros H1 H2.
  set (R := fun st st' : State =>
              coherent_should_edit w st /\ coherent_map_to_new_upstream w st ->
              coherent_should_edit w st' /\ coherent_map_to_new_upstream w st').
  assert (Hrefl : forall s, R s s) by (intros s H; exact H).
  assert (Htrans : forall s1 s2 s3, R s1 s2 -> R s2 s3 -> R s1 s3)
    by (intros s1 s2 s3 A B H; apply B, A, H).
  assert (Hse : forall r s, R s (should_edit w r s).2).
  { intros r s [A B]. split;
      [apply should_edit_coherent, A | apply should_edit_keeps_map_coherent, B]. }
  assert (Hmap : forall r s, R s (map_to_new_upstream w r s).2).
  { intros r s [A B]. split;
      [apply map_to_new_upstream_keeps_should_edit_coherent, A
      |apply map_to_new_upstream_coherent, B]. }
  split.
  - apply (filter_index_keeps w R Hrefl Htrans Hse Hmap); [|split; assumption].
    intros s l H. exact H.
  - apply (filter_parent_keeps w R Hrefl Htrans Hse Hmap); [|split; assumption].
    intros s l H. exact H.
Qed.

Lemma coherence_is_kept_witness :
  coherent_should_edit (Fixture.repo " -p c1 -p a1")
    (filter_parent (Fixture.repo " -p c1 -p a1") "m1" initial).2 /\
  cache_map_to_new_upstream
    (filter_parent (Fixture.repo " -p c1 -p a1") "m1" initial).2 !! "a1"
    = Some (Some "b1").
Proof.
  destruct (coherence_is_kept (Fixture.repo " -p c1 -p a1") initial "m1"
              (coherent_should_edit_initial _) (coherent_map_to_new_upstream_initial _))
    as [_ [H _]].
  split; [exact H|reflexivity].
Defined.

Lemma filter_parent_effects w rev st : effects (filter_parent w rev st).2 = effects st.
Proof.
  apply (filter_parent_keeps w (fun s s' => effects s' = effects s)); try done.
  - intros s1 s2 s3 A B. congruence.
  - intros r s. apply should_edit_frame.
  - intros r s. apply map_to_new_upstream_frame.
Qed.

Lemma filter_index_stdout w rev st : stdout (filter_index w rev st).2 = stdout st.
Proof.
  apply (filter_index_keeps w (fun s s' => stdout s' = stdout s)); try done.
  - intros s1 s2 s3 A B. congruence.
  - intros r s. apply should_edit_frame.
  - intros r s. apply map_to_new_upstream_frame.
Qed.

(** X5: [filter_parent] runs no command for its effect and renames nothing,
    and [filter_index], [should_edit] and [map_to_new_upstream] print
    nothing: whatever the outcome of the run. *)
Theorem filter_parent_runs_nothing (w : World) (st : State) (rev : string) :
  effects (filter_parent w rev st).2 = effects st /\
  stdout (filter_index w rev st).2 = stdout st /\
  stdout (should_edit w rev st).2 = stdout st /\
  stdout (map_to_new_upstream w rev st).2 = stdout st.
Proof.
  split; [apply filter_parent_effects|]. split; [apply filter_index_stdout|].
  split; [apply should_edit_frame|apply map_to_new_upstream_frame].
Qed.

Lemma filter_parent_stdout w rev st :
  match (filter_parent w rev st).1 with
  | Ok _ => exists line, stdout (filter_parent w rev st).2 = stdout st +:+ line +:+ nl
  | Raise _ => stdout (filter_parent w rev st).2 = stdout st
  end.
Proof.
  unfold filter_parent, time_decorator, bind.
  pose proof (should_edit_frame w rev st) as (Fo & _). cbv zeta in Fo.
  destruct (should_edit w rev st) as [[edit|e] st1]; cbn [fst snd] in *; [|exact Fo].
  destruct edit; cbn [negb].
  - assert (Fr : stdout (rewrite_parents w (split_ws (strip (stdin w))) [] st1).2
                 = stdout st1).
    { apply (rewrite_parents_keeps w (fun s s' => stdout s' = stdout s)); try done.
      - intros s1 s2 s3 A B. congruence.
      - intros r s. apply map_to_new_upstream_frame. }
    destruct (rewrite_parents w (split_ws (strip (stdin w))) [] st1) as [[l|e] st2];
      cbn [fst snd print stdout] in *; [|congruence].
    exists (join " " l). rewrite Fr, Fo. reflexivity.
  - cbn [fst snd print stdout]. exists (stdin w). rewrite Fo. reflexivity.
Qed.



(** ** Running without [pyfscache] *)

Lemma should_edit_uncached w rev st :
  pyfscache w = false -> should_edit w rev st = (should_edit_body w rev, st).
Proof. intros H. rewrite should_edit_eq, H. reflexivity. Qed.

Lemma map_to_new_upstream_uncached w rev st :
  pyfscache w = false ->
  map_to_new_upstream w rev st = (map_to_new_upstream_body w rev, st).
Proof. intros H. rewrite map_to_new_upstream_eq, H. reflexivity. Qed.

Lemma first_mapped_parent_uncached w w0 parents fallback : forall st st0,
  coherent_map_to_new_upstream w st ->
  pyfscache w0 = false ->
  (forall rev, map_to_new_upstream_body w0 rev = map_to_new_upstream_body w rev) ->
  (first_mapped_parent w0 parents fallback st0).1
    = (first_mapped_parent w parents fallback st).1.
Proof.
  induction parents as [|p rest IH]; intros st st0 Hc H0 Hb; [reflexivity|].
  cbn [first_mapped_parent]. unfold bind.
  rewrite (map_to_new_upstream_uncached w0 p st0 H0), Hb.
  pose proof (map_to_new_upstream_result w p st Hc) as Hr.
  pose proof (map_to_new_upstream_coherent w p st Hc) as Hc'.
  destruct (map_to_new_upstream w p st) as [r st1]. cbn [fst snd] in *. subst r.
  destruct (map_to_new_upstream_body w p) as [[t|]|e]; try reflexivity.
  apply IH; assumption.
Qed.

Lemma rewrite_parents_uncached w w0 tokens : forall acc st st0,
  coherent_map_to_new_upstream w st ->
  pyfscache w0 = false ->
  (forall rev, map_to_new_upstream_body w0 rev = map_to_new_upstream_body w rev) ->
  (rewrite_parents w0 tokens acc st0).1 = (rewrite_parents w tokens acc st).1.
Proof.
  induction tokens as [|p rest IH]; intros acc st st0 Hc H0 Hb; [reflexivity|].
  cbn [rewrite_parents]. destruct (String.eqb p "-p"); [apply IH; assumption|].
  unfold bind.
  rewrite (map_to_new_upstream_uncached w0 p st0 H0), Hb.
  pose proof (map_to_new_upstream_result w p st Hc) as Hr.
  pose proof (map_to_new_upstream_coherent w p st Hc) as Hc'.
  destruct (map_to_new_upstream w p st) as [r st1]. cbn [fst snd] in *. subst r.
  destruct (map_to_new_upstream_body w p) as [v|e]; [|reflexivity].
  destruct (truthy v); apply IH; assumption.
Qed.

Lemma stdout_after_rewrite_parents w tokens acc st :
  stdout (rewrite_parents w tokens acc st).2 = stdout st.
Proof.
  apply (rewrite_parents_keeps w (fun s s' => stdout s' = stdout s)); try done.
  - intros s1 s2 s3 A B. congruence.
  - intros r s. apply map_to_new_upstream_frame.
Qed.

Lemma filter_parent_observable_uncached w w0 rev st :
  coherent_should_edit w st -> coherent_map_to_new_upstream w st ->
  pyfscache w0 = false ->
  stdin w0 = stdin w ->
  (forall r, should_edit_body w0 r = should_edit_body w r) ->
  (forall r, map_to_new_upstream_body w0 r = map_to_new_upstream_body w r) ->
  observable (filter_parent w0 rev st) = observable (filter_parent w rev st).
Proof.
  intros Hs Hm H0 Hin Hbs Hbm.
  pose proof (filter_parent_effects w rev st) as Fe.
  pose proof (filter_parent_effects w0 rev st) as Fe0.
  unfold observable. rewrite Fe, Fe0. f_equal.
  clear Fe Fe0.
  unfold filter_parent, time_decorator, bind.
  rewrite (should_edit_uncached w0 rev st H0), Hbs, Hin.
  pose proof (should_edit_result w rev st Hs) as Hr.
  pose proof (should_edit_frame w rev st) as (Fo & _). cbv zeta in Fo.
  pose proof (should_edit_keeps_map_coherent w rev st Hm) as Hm1.
  destruct (should_edit w rev st) as [r st1]. cbn [fst snd] in *. subst r.
  destruct (should_edit_body w rev) as [[|]|e]; cbn [negb fst snd].
  - pose proof (rewrite_parents_uncached w w0 (split_ws (strip (stdin w))) [] st1 st
                  Hm1 H0 Hbm) as Hrw.
    pose proof (stdout_after_rewrite_parents w (split_ws (strip (stdin w))) [] st1) as F1.
    pose proof (stdout_after_rewrite_parents w0 (split_ws (strip (stdin w))) [] st) as F0.
    destruct (rewrite_parents w (split_ws (strip (stdin w))) [] st1) as [r1 s1].
    destruct (rewrite_parents w0 (split_ws (strip (stdin w))) [] st) as [r0 s0].
    cbn [fst snd] in *. subst r0.
    destruct r1 as [l|e]; cbn [print fst snd stdout]; congruence.
  - cbn [print fst snd stdout]. congruence.
  - congruence.
Qed.

Lemma filter_index_observable_uncached w w0 rev st :
  coherent_should_edit w st -> coherent_map_to_new_upstream w st ->
  pyfscache w0 = false ->
  check_output w0 = check_output w -> check_call w0 = check_call w ->
  rename_ok w0 = rename_ok w -> files w0 = files w -> environ w0 = environ w ->
  observable (filter_index w0 rev st) = observable (filter_index w rev st).
Proof.
  intros Hs Hm H0 Eo Ec Er Ef Ee.
  assert (Hbs : forall r, should_edit_body w0 r = should_edit_body w r)
    by (intros r; unfold should_edit_body, subprocess_check_output; rewrite Eo; reflexivity).
  assert (Hbm : forall r, map_to_new_upstream_body w0 r = map_to_new_upstream_body w r)
    by (intros r; unfold map_to_new_upstream_body, subprocess_check_output;
        rewrite Eo; reflexivity).
  assert (Hmf : forall r, map_to_filtered w0 r = map_to_filtered w r)
    by (intros r; unfold map_to_filtered; rewrite Ef; reflexivity).
  pose proof (filter_index_stdout w rev st) as Fo.
  pose proof (filter_index_stdout w0 rev st) as Fo0.
  unfold observable. rewrite Fo, Fo0. clear Fo Fo0.
  pose proof (should_edit_result w rev st Hs) as Hr.
  assert (Hr0 : (should_edit w0 rev st).1 = should_edit_body w rev)
    by (rewrite (should_edit_uncached w0 rev st H0), Hbs; reflexivity).
  assert (Hst0 : (should_edit w0 rev st).2 = st)
    by (rewrite (should_edit_uncached w0 rev st H0); reflexivity).
  pose proof (should_edit_frame w rev st) as (_ & Fe & _). cbv zeta in Fe.
  pose proof (filter_index_early w rev st) as He. cbv zeta in He.
  pose proof (filter_index_early w0 rev st) as He0. cbv zeta in He0.
  rewrite Hr in He. rewrite Hr0, Hst0, Eo in He0.
  destruct (should_edit_body w rev) as [[|]|e].
  - destruct (check_output w (rev_list_cmd rev)) as [out|] eqn:Hout.
    + destruct (tail (split_ws (strip out))) as [|p0 ps] eqn:Hps.
      * rewrite He, He0. cbn [fst snd]. rewrite Fe. reflexivity.
      * assert (Hout0 : check_output w0 (rev_list_cmd rev) = Some out)
          by (rewrite Eo; exact Hout).
        pose proof (filter_index_edit w rev st out p0 ps Hr Hout Hps) as Hrun.
        pose proof (filter_index_edit w0 rev st out p0 ps Hr0 Hout0 Hps) as Hrun0.
        cbv zeta in Hrun, Hrun0.
        rewrite (first_mapped_parent_uncached w w0 (p0 :: ps) p0
                   (should_edit w rev st).2 (should_edit w0 rev st).2
                   (should_edit_keeps_map_coherent w rev st Hm) H0 Hbm) in Hrun0.
        destruct (first_mapped_parent w (p0 :: ps) p0 (should_edit w rev st).2).1
          as [ref|e].
        -- rewrite Hmf, Ee in Hrun0.
           destruct (map_to_filtered w ref) as [entry|e].
           ++ destruct (environ w !! "GIT_INDEX_FILE") as [index_file|].
              ** destruct Hrun as [-> ->], Hrun0 as [-> ->].
                 unfold publish_result, publish_effects. rewrite Ec, Er. reflexivity.
              ** destruct Hrun as [-> ->], Hrun0 as [-> ->]. reflexivity.
           ++ destruct Hrun as [-> ->], Hrun0 as [-> ->]. reflexivity.
        -- destruct Hrun as [-> ->], Hrun0 as [-> ->]. reflexivity.
    + rewrite He, He0. cbn [fst snd]. rewrite Fe. unfold rev_list_cmd. reflexivity.
  - rewrite He, He0. cbn [fst snd]. rewrite Fe. reflexivity.
  - rewrite He, He0. cbn [fst snd]. rewrite Fe. reflexivity.
Qed.

(** X7: the cache can be switched off: from stores coherent with the
    repository, [filter_index] and [filter_parent] return, print and do to
    the file system exactly what they return, print and do when [pyfscache]
    is missing, and without [pyfscache] they leave the stores untouched. *)
Theorem cache_can_be_disabled (w : World) (st : State) (rev : string) :
  coherent_should_edit w st -> coherent_map_to_new_upstream w st ->
  observable (filter_index (with_pyfscache false w) rev st)
    = observable (filter_index w rev st) /\
  observable (filter_parent (with_pyfscache false w) rev st)
    = observable (filter_parent w rev st) /\
  cache_should_edit (filter_index (with_pyfscache false w) rev st).2
    = cache_should_edit st /\
  cache_map_to_new_upstream (filter_index (with_pyfscache false w) rev st).2
    = cache_map_to_new_upstream st /\
  cache_should_edit (filter_parent (with_pyfscache false w) rev st).2
    = cache_should_edit st /\
  cache_map_to_new_upstream (filter_parent (with_pyfscache false w) rev st).2
    = cache_map_to_new_upstream st.
Proof.
  intros Hs Hm.
  set (w0 := with_pyfscache false w).
  set (R := fun s s' : State =>
              cache_should_edit s' = cache_should_edit s /\
              cache_map_to_new_upstream s' = cache_map_to_new_upstream s).
  assert (Hrefl : forall s, R s s) by (intros s; split; reflexivity).
  assert (Htrans : forall s1 s2 s3, R s1 s2 -> R s2 s3 -> R s1 s3)
    by (intros s1 s2 s3 [A B] [C D]; split; congruence).
  assert (Hse : forall r s, R s (should_edit w0 r s).2)
    by (intros r s; rewrite (should_edit_uncached w0 r s eq_refl); apply Hrefl).
  assert (Hmap : forall r s, R s (map_to_new_upstream w0 r s).2)
    by (intros r s; rewrite (map_to_new_upstream_uncached w0 r s eq_refl); apply Hrefl).
  assert (Hi : R st (filter_index w0 rev st).2)
    by (apply (filter_index_keeps w0 R Hrefl Htrans Hse Hmap); intros s l; split; reflexivity).
  assert (Hp : R st (filter_parent w0 rev st).2)
    by (apply (filter_parent_keeps w0 R Hrefl Htrans Hse Hmap); intros s l; split; reflexivity).
  split; [apply filter_index_observable_uncached; done|].
  split; [apply filter_parent_observable_uncached; done|].
  destruct Hi as [? ?], Hp as [? ?]. auto.
Qed.

Lemma cache_can_be_disabled_witness :
  observable (filter_parent (with_pyfscache false (Fixture.repo " -p c1 -p a1")) "m1" initial)
    = (Ok tt, "-p c1 -p b1" +:+ nl, []) /\
  observable (filter_parent (Fixture.repo " -p c1 -p a1") "m1" initial)
    = (Ok tt, "-p c1 -p b1" +:+ nl, []).
Proof.
  destruct (cache_can_be_disabled (Fixture.repo " -p c1 -p a1") initial "m1"
              (coherent_should_edit_initial _) (coherent_map_to_new_upstream_initial _))
    as (_ & H & _).
  split; [reflexivity|]. rewrite <- H. reflexivity.
Defined.

(** ** How the classifier, the mapper and the two filters fit together *)

Lemma body_None_to_edit w rev :
  map_to_new_upstream_body w rev = Ok None -> should_edit_body w rev = Ok true.
Proof.
  unfold map_to_new_upstream_body, should_edit_body, rbind, subprocess_check_output.
  intros H.
  repeat match type of H with
         | context [match ?x with _ => _ end] => destruct x eqn:?; try discriminate H
         end;
    simplify_eq; cbn; repeat match goal with
                      | E : String.eqb _ _ = false |- _ => rewrite E
                      end; reflexivity.
Qed.

(** X8: the mapper answers "no correspondence" only for commits the
    classifier sends to rewriting: when [map_to_new_upstream rev] is [None],
    [should_edit rev] is true. *)
Theorem no_correspondence_only_for_commits_to_edit (w : World) (st st' : State)
    (rev : string) :
  coherent_map_to_new_upstream w st -> coherent_should_edit w st' ->
  (map_to_new_upstream w rev st).1 = Ok None ->
  (should_edit w rev st').1 = Ok true.
Proof.
  intros Hm Hs H.
  rewrite (map_to_new_upstream_result w rev st Hm) in H.
  rewrite (should_edit_result w rev st' Hs). apply body_None_to_edit, H.
Qed.

Lemma no_correspondence_only_for_commits_to_edit_witness :
  (map_to_new_upstream (Fixture.repo "") "d1" initial).1 = Ok None /\
  (should_edit (Fixture.repo "") "d1" initial).1 = Ok true.
Proof.
  split; [reflexivity|].
  apply (no_correspondence_only_for_commits_to_edit (Fixture.repo "") initial initial "d1"
           (coherent_map_to_new_upstream_initial _) (coherent_should_edit_initial _)).
  reflexivity.
Defined.

(** X9: the loop of [filter_index] stops at the first parent with a
    correspondence: the parents after it are not looked up, so they leave no
    entry in the store and an error they would raise is not raised. *)
Theorem later_parents_are_not_looked_up
    (w : World) (before : list string) (p t : string) (rest : list string)
    (fallback : string) (st : State) :
  coherent_map_to_new_upstream w st ->
  (forall q, q ∈ before -> map_to_new_upstream_body w q = Ok None) ->
  map_to_new_upstream_body w p = Ok (Some t) ->
  (first_mapped_parent w (before ++ p :: rest) fallback st).1 = Ok t /\
  first_mapped_parent w (before ++ p :: rest) fallback st
    = first_mapped_parent w (before ++ [p]) fallback st.
Proof.
  revert st. induction before as [|q before IH]; intros st Hc Hnone Hp.
  - cbn [app first_mapped_parent]. unfold bind.
    pose proof (map_to_new_upstream_result w p st Hc) as Hr. rewrite Hp in Hr.
    destruct (map_to_new_upstream w p st) as [r st1]. cbn [fst] in Hr. subst r.
    split; reflexivity.
  - cbn [app first_mapped_parent]. unfold bind.
    pose proof (map_to_new_upstream_result w q st Hc) as Hr.
    rewrite (Hnone q) in Hr; [|apply list_elem_of_here].
    pose proof (map_to_new_upstream_coherent w q st Hc) as Hc'.
    destruct (map_to_new_upstream w q st) as [r st1]. cbn [fst snd] in *. subst r.
    apply IH; [exact Hc'| |exact Hp].
    intros q' Hq'. apply Hnone, list_elem_of_further, Hq'.
Qed.

Lemma later_parents_are_not_looked_up_witness :
  map_to_new_upstream_body (Fixture.repo "") "f1"
    = Raise (RuntimeError (ambiguity_message "f1")) /\
  (first_mapped_parent (Fixture.repo "") (["c1"] ++ "a1" :: ["f1"; "e1"]) "c1" initial).1
    = Ok "b1".
Proof.
  split; [reflexivity|].
  apply (later_parents_are_not_looked_up (Fixture.repo "") ["c1"] "a1" "b1" ["f1"; "e1"]
           "c1" initial (coherent_map_to_new_upstream_initial _)); [|reflexivity].
  intros q Hq. mem_inv Hq. subst q. reflexivity.
Defined.

(** The loop of [filter_parent] stops at the first parent whose lookup
    raises. *)
Lemma rewrite_parents_raises w before p rest e : forall acc st,
  coherent_map_to_new_upstream w st ->
  Forall (fun q => q <> "-p") (before ++ [p]) ->
  (forall q, q ∈ before -> exists r, map_to_new_upstream_body w q = Ok r) ->
  map_to_new_upstream_body w p = Raise e ->
  (rewrite_parents w (flag_tagged (before ++ p :: rest)) acc st).1 = Raise e.
Proof.
  induction before as [|q before IH]; intros acc st Hc Hflag Hok Hp.
  - cbn [app]. rewrite flag_tagged_cons. cbn [rewrite_parents].
    change (String.eqb "-p" "-p") with true. cbv iota.
    inversion Hflag as [|? ? Hne _]; subst.
    apply String.eqb_neq in Hne. rewrite Hne. unfold bind.
    rewrite (map_to_new_upstream_raises w p st e Hc Hp). reflexivity.
  - cbn [app]. rewrite flag_tagged_cons. cbn [rewrite_parents].
    change (String.eqb "-p" "-p") with true. cbv iota.
    cbn [app] in Hflag. inversion Hflag as [|? ? Hne Hflag']; subst.
    apply String.eqb_neq in Hne. rewrite Hne. unfold bind.
    pose proof (map_to_new_upstream_result w q st Hc) as Hr.
    pose proof (map_to_new_upstream_coherent w q st Hc) as Hc'.
    destruct (map_to_new_upstream w q st) as [r st1]. cbn [fst snd] in *.
    destruct (Hok q) as [v Hv]; [apply list_elem_of_here|].
    rewrite Hv in Hr. subst r.
    assert (Hrest : forall q', q' ∈ before ->
              exists r, map_to_new_upstream_body w q' = Ok r)
      by (intros q' Hq'; apply Hok, list_elem_of_further, Hq').
    destruct (truthy v); apply IH; assumption.
Qed.

(** X10: [filter_parent] looks every parent up: the first lookup that raises
    ends the run with that exception, whatever comes after it, and nothing
    is printed. *)
Theorem filter_parent_stops_at_first_error
    (w : World) (st : State) (rev : string) (before : list string) (p : string)
    (rest : list string) (e : Exception) :
  coherent_map_to_new_upstream w st ->
  (should_edit w rev st).1 = Ok true ->
  split_ws (strip (stdin w)) = flag_tagged (before ++ p :: rest) ->
  Forall (fun q => q <> "-p") (before ++ [p]) ->
  (forall q, q ∈ before -> exists r, map_to_new_upstream_body w q = Ok r) ->
  map_to_new_upstream_body w p = Raise e ->
  (filter_parent w rev st).1 = Raise e /\
  stdout (filter_parent w rev st).2 = stdout st.
Proof.
  intros Hc Hedit Hin Hflag Hok Hp.
  assert (Hr : (filter_parent w rev st).1 = Raise e).
  { pose proof (should_edit_keeps_map_coherent w rev st Hc) as Hc1.
    unfold filter_parent, time_decorator, bind.
    destruct (should_edit w rev st) as [r st1]. cbn [fst snd] in *. subst r.
    cbn [negb]. rewrite Hin.
    pose proof (rewrite_parents_raises w before p rest e [] st1 Hc1 Hflag Hok Hp) as Hrw.
    destruct (rewrite_parents w (flag_tagged (before ++ p :: rest)) [] st1) as [r st2].
    cbn [fst] in Hrw. subst r. reflexivity. }
  split; [exact Hr|].
  pose proof (filter_parent_stdout w rev st) as H. rewrite Hr in H. exact H.
Qed.

Lemma filter_parent_stops_at_first_error_witness :
  (should_edit (Fixture.repo " -p a1 -p f1 -p c1") "m1" initial).1 = Ok true /\
  (filter_parent (Fixture.repo " -p a1 -p f1 -p c1") "m1" initial).1
    = Raise (RuntimeError (ambiguity_message "f1")) /\
  stdout (filter_parent (Fixture.repo " -p a1 -p f1 -p c1") "m1" initial).2 = "".
Proof.
  split; [reflexivity|].
  assert (Hflag : Forall (fun q : string => q <> "-p") (["a1"] ++ ["f1"]))
    by (repeat constructor; discriminate).
  apply (filter_parent_stops_at_first_error (Fixture.repo " -p a1 -p f1 -p c1") initial
           "m1" ["a1"] "f1" ["c1"] (RuntimeError (ambiguity_message "f1"))
           (coherent_map_to_new_upstream_initial _) eq_refl eq_refl Hflag);
    [|reflexivity].
  intros q Hq. mem_inv Hq. subst q. eexists. reflexivity.
Defined.

Lemma reference_parent_raises w before p rest fallback e :
  (forall q, q ∈ before -> map_to_new_upstream_body w q = Ok None) ->
  map_to_new_upstream_body w p = Raise e ->
  reference_parent w (before ++ p :: rest) fallback = Raise e.
Proof.
  intros Hnone Hp. induction before as [|q before IH]; cbn [app reference_parent].
  - rewrite Hp. reflexivity.
  - rewrite (Hnone q); [|apply list_elem_of_here].
    apply IH. intros q' Hq'. apply Hnone, list_elem_of_further, Hq'.
Qed.

(** X11: on a commit to edit, [filter_index] gives up before it runs the
    shell command, leaving the index and its temporary file alone, when the
    lookup of a parent raises before any correspondence is found, when the
    rewrite-map entry of the reference parent is malformed, and when
    [GIT_INDEX_FILE] is not set (a [KeyError], raised only after the parents
    have been mapped). *)
Theorem filter_index_gives_up_before_building
    (w : World) (st : State) (rev out p0 : string) (ps : list string) :
  coherent_map_to_new_upstream w st ->
  (should_edit w rev st).1 = Ok true ->
  check_output w (rev_list_cmd rev) = Some out ->
  tail (split_ws (strip out)) = p0 :: ps ->
  (forall before p rest e,
     p0 :: ps = (before ++ p :: rest)%list ->
     (forall q, q ∈ before -> map_to_new_upstream_body w q = Ok None) ->
     map_to_new_upstream_body w p = Raise e ->
     (filter_index w rev st).1 = Raise e /\
     effects (filter_index w rev st).2 = effects st) /\
  (forall ref e,
     chosen_reference w (p0 :: ps) ref ->
     map_to_filtered w ref = Raise e ->
     (filter_index w rev st).1 = Raise e /\
     effects (filter_index w rev st).2 = effects st) /\
  (forall ref entry,
     chosen_reference w (p0 :: ps) ref ->
     map_to_filtered w ref = Ok entry ->
     environ w !! "GIT_INDEX_FILE" = None ->
     (filter_index w rev st).1 = Raise (KeyError "GIT_INDEX_FILE") /\
     effects (filter_index w rev st).2 = effects st).
Proof.
  intros Hc Hedit Hout Hps.
  pose proof (filter_index_edit w rev st out p0 ps Hedit Hout Hps) as Hrun.
  cbv zeta in Hrun.
  rewrite (first_mapped_parent_result w (p0 :: ps) p0 _
             (should_edit_keeps_map_coherent w rev st Hc)) in Hrun.
  split; [|split].
  - intros before p rest e Heq Hnone Hp.
    rewrite Heq, (reference_parent_raises w before p rest p0 e Hnone Hp) in Hrun.
    exact Hrun.
  - intros ref e Hch Hmf.
    rewrite (chosen_reference_parent w (p0 :: ps) p0 ref eq_refl Hch), Hmf in Hrun.
    exact Hrun.
  - intros ref entry Hch Hmf Henv.
    rewrite (chosen_reference_parent w (p0 :: ps) p0 ref eq_refl Hch), Hmf, Henv in Hrun.
    exact Hrun.
Qed.

Lemma filter_index_gives_up_before_building_witness :
  (filter_index (Driver.repo ∅ "") "m2" initial).1
    = Raise (RuntimeError (ambiguity_message "f1")) /\
  (filter_index (Driver.repo ∅ "") "m3" initial).1
    = Raise (RuntimeError (malformed_message "../map/two" ["x1"; "y1"])) /\
  (filter_index (Driver.repo ∅ "") "d1" initial).1 = Raise (KeyError "GIT_INDEX_FILE") /\
  effects (filter_index (Driver.repo ∅ "") "d1" initial).2 = [].
Proof.
  split; [|split].
  - destruct (filter_index_gives_up_before_building (Driver.repo ∅ "") initial "m2"
                ("m2 c1 f1" +:+ nl) "c1" ["f1"]
                (coherent_map_to_new_upstream_initial _) eq_refl eq_refl eq_refl)
      as (H & _).
    apply (H ["c1"] "f1" [] (RuntimeError (ambiguity_message "f1")));
      [reflexivity| |reflexivity].
    intros q Hq. mem_inv Hq. subst q. reflexivity.
  - destruct (filter_index_gives_up_before_building (Driver.repo ∅ "") initial "m3"
                ("m3 two" +:+ nl) "two" []
                (coherent_map_to_new_upstream_initial _) eq_refl eq_refl eq_refl)
      as (_ & H & _).
    apply (H "two"); [|reflexivity].
    right. split; [|reflexivity].
    intros q Hq. mem_inv Hq. subst q. reflexivity.
  - destruct (filter_index_gives_up_before_building (Driver.repo ∅ "") initial "d1"
                ("d1 c1" +:+ nl) "c1" []
                (coherent_map_to_new_upstream_initial _) eq_refl eq_refl eq_refl)
      as (_ & _ & H).
    apply (H "c1" None); [|reflexivity|reflexivity].
    right. split; [|reflexivity].
    intros q Hq. mem_inv Hq. subst q. reflexivity.
Defined.

(** ** The rewrite map *)

Lemma split_singleton sep s h : split sep s = [h] -> s = h.
Proof.
  revert h. induction s as [|c s IH]; intros h; cbn [split].
  - intros [= <-]. reflexivity.
  - destruct (Ascii.eqb c sep).
    + destruct s; cbn [split]; [discriminate|].
      destruct (Ascii.eqb _ sep); [discriminate|].
      destruct (split sep s); discriminate.
    + destruct (split sep s) as [|w ws] eqn:E; [intros [= <-]|].
      * destruct s; cbn [split] in E; [discriminate|].
        destruct (Ascii.eqb _ sep); [discriminate|].
        destruct (split sep s); discriminate.
      * intros [= <- ->]. f_equal. apply IH. reflexivity.
Qed.

Lemma rstrip_idem s : rstrip (rstrip s) = rstrip s.
Proof.
  induction s as [|c s IH]; [reflexivity|].
  cbn [rstrip]. destruct (rstrip s) as [|d r] eqn:E.
  - destruct (isspace c) eqn:Ec; [reflexivity|]. cbn [rstrip]. rewrite Ec. reflexivity.
  - cbn [rstrip]. cbn [rstrip] in IH. rewrite IH. reflexivity.
Qed.

Lemma lstrip_rstrip_lstrip s : lstrip (rstrip (lstrip s)) = rstrip (lstrip s).
Proof.
  induction s as [|c s IH]; [reflexivity|].
  cbn [lstrip]. destruct (isspace c) eqn:Ec; [exact IH|].
  cbn [rstrip]. destruct (rstrip s); rewrite ?Ec; cbn [lstrip]; rewrite ?Ec; reflexivity.
Qed.

Lemma strip_idem s : strip (strip s) = strip s.
Proof. unfold strip. rewrite lstrip_rstrip_lstrip. apply rstrip_idem. Qed.

(** X12: what the driver records is what [map_to_filtered] reads: once the
    map file of [rev] holds the hash [h] and a newline, [map_to_filtered rev]
    is [h], and the answer for every other commit is what it was. *)
Theorem map_entry_round_trip (w : World) (rev h : string) :
  strip h = h -> split newline h = [h] ->
  map_to_filtered (with_map_entry rev (h +:+ nl) w) rev = Ok (Some h) /\
  (forall rev', rev' <> rev ->
     map_to_filtered (with_map_entry rev (h +:+ nl) w) rev' = map_to_filtered w rev').
Proof.
  intros Hs Hl. split.
  - unfold map_to_filtered. cbn [files with_map_entry].
    rewrite lookup_insert_eq, strip_app_nl, Hs. fold newline. rewrite Hl. reflexivity.
  - intros rev' Hne. unfold map_to_filtered. cbn [files with_map_entry].
    rewrite lookup_insert_ne; [reflexivity|].
    intros Heq. apply Hne. symmetry. exact (String.app_inj "../map/" _ _ Heq).
Qed.

Lemma map_entry_round_trip_witness :
  map_to_filtered (Fixture.repo "") "c1" = Ok None /\
  map_to_filtered (with_map_entry "c1" ("c1f" +:+ nl) (Fixture.repo "")) "c1"
    = Ok (Some "c1f") /\
  map_to_filtered (with_map_entry "c1" ("c1f" +:+ nl) (Fixture.repo "")) "b1"
    = Ok (Some "b1f").
Proof.
  destruct (map_entry_round_trip (Fixture.repo "") "c1" "c1f" eq_refl eq_refl) as [H1 H2].
  split; [reflexivity|]. split; [exact H1|].
  rewrite H2; [reflexivity|discriminate].
Defined.

(** X13: a hash returned by [map_to_filtered] or by [map_to_new_upstream]
    is one stripped line: it has no whitespace around it and no newline in
    it; the one of [map_to_new_upstream] is not empty either. *)
Theorem returned_hash_is_one_stripped_line (w : World) (st : State) (rev h : string) :
  (map_to_filtered w rev = Ok (Some h) -> strip h = h /\ split newline h = [h]) /\
  (coherent_map_to_new_upstream w st ->
   (map_to_new_upstream w rev st).1 = Ok (Some h) ->
   h <> "" /\ strip h = h /\ split newline h = [h]).
Proof.
  split.
  - unfold map_to_filtered. destruct (files w !! _) as [content|]; [|discriminate].
    fold newline. destruct (split newline (strip content)) as [|l0 [|l1 ls]] eqn:E;
      cbn [length Nat.eqb negb]; try discriminate.
    intros [= <-]. pose proof (split_singleton _ _ _ E) as <-.
    split; [apply strip_idem|exact E].
  - intros Hc H. rewrite (map_to_new_upstream_result w rev st Hc) in H.
    split; [exact (body_Some_nonempty w rev h H)|].
    unfold map_to_new_upstream_body, rbind, subprocess_check_output in H.
    destruct (check_output w _) as [out|]; [|discriminate].
    destruct (split1 " " (strip out)) as [|date [|email [|]]]; try discriminate.
    destruct (int date) as [d|]; [|discriminate].
    destruct (check_output w _) as [out2|]; [|discriminate].
    fold newline in H.
    destruct (split newline (strip out2)) as [|l0 [|l1 ls]] eqn:E;
      cbn [length Nat.ltb Nat.leb] in H.
    + destruct (check_output w _); [|discriminate].
      destruct (String.eqb _ rev); discriminate.
    + pose proof (split_singleton _ _ _ E) as <-.
      destruct (String.eqb (strip out2) "").
      * destruct (check_output w _); [|discriminate].
        destruct (String.eqb _ rev); discriminate.
      * injection H as <-. split; [apply strip_idem|exact E].
    + discriminate.
Qed.

Lemma returned_hash_is_one_stripped_line_witness :
  map_to_filtered (Fixture.repo "") "b1" = Ok (Some "b1f") /\
  (strip "b1f" = "b1f" /\ split newline "b1f" = ["b1f"]) /\
  (map_to_new_upstream (Fixture.repo "") "a1" initial).1 = Ok (Some "b1") /\
  ("b1" <> "" /\ strip "b1" = "b1" /\ split newline "b1" = ["b1"]).
Proof.
  split; [reflexivity|]. split; [|split; [reflexivity|]].
  - apply (proj1 (returned_hash_is_one_stripped_line (Fixture.repo "") initial "b1" "b1f")).
    reflexivity.
  - apply (proj2 (returned_hash_is_one_stripped_line (Fixture.repo "") initial "a1" "b1"));
      [apply coherent_map_to_new_upstream_initial|reflexivity].
Defined.

(** ** The entry point *)

Lemma cmd_is_iff cmd name : cmd_is cmd name = true <-> cmd = Some name.
Proof.
  destruct cmd as [c|]; cbn [cmd_is]; [|split; discriminate].
  rewrite String.eqb_eq. split; [intros ->; reflexivity|intros [= ->]; reflexivity].
Qed.

(** X14: the process ends with status 0 only through a filter that
    returned: [GIT_COMMIT] is set, the first argument is [index] or [parent],
    and the filter of that name did not raise.  Any other run (no commit, no
    or unknown command, any exception) ends with status 1. *)
Theorem main_succeeds_only_through_a_filter
    (w : World) (argv0 : string) (args : list string) (st : State) :
  (exit_status (main w argv0 args st).1 = 0 <->
   exists rev,
     environ w !! "GIT_COMMIT" = Some rev /\
     ((head args = Some "index" /\ (filter_index w rev st).1 = Ok tt) \/
      (head args = Some "parent" /\ (filter_parent w rev st).1 = Ok tt))) /\
  (exit_status (main w argv0 args st).1 = 0 \/ exit_status (main w argv0 args st).1 = 1).
Proof.
  unfold main.
  destruct (environ w !! "GIT_COMMIT") as [rev|].
  2:{ split; [split; [discriminate|intros (r & H & _); discriminate H]|right; reflexivity]. }
  pose proof (cmd_is_iff (head args) "index") as Hi.
  pose proof (cmd_is_iff (head args) "parent") as Hp.
  destruct (cmd_is (head args) "index") eqn:Ei.
  - assert (Hc : head args = Some "index") by (apply Hi; reflexivity).
    destruct (filter_index w rev st) as [[[]|e] st1] eqn:Ef; cbn [finish fst exit_status].
    + split; [|left; reflexivity]. split; [|reflexivity].
      intros _. exists rev. split; [reflexivity|]. left.
      split; [exact Hc|rewrite Ef; reflexivity].
    + split; [|right; reflexivity]. split; [discriminate|].
      intros (r & [= <-] & [[_ H]|[H _]]); [rewrite Ef in H; discriminate H|congruence].
  - assert (Hn : head args <> Some "index")
      by (intros H; apply Hi in H; discriminate H).
    destruct (cmd_is (head args) "parent") eqn:Ep.
    + assert (Hc : head args = Some "parent") by (apply Hp; reflexivity).
      destruct (filter_parent w rev st) as [[[]|e] st1] eqn:Ef;
        cbn [finish fst exit_status].
      * split; [|left; reflexivity]. split; [|reflexivity].
        intros _. exists rev. split; [reflexivity|]. right.
        split; [exact Hc|rewrite Ef; reflexivity].
      * split; [|right; reflexivity]. split; [discriminate|].
        intros (r & [= <-] & [[H _]|[_ H]]); [congruence|rewrite Ef in H; discriminate H].
    + assert (Hn' : head args <> Some "parent")
        by (intros H; apply Hp in H; discriminate H).
      cbn [fst exit_status]. split; [|right; reflexivity]. split; [discriminate|].
      intros (r & _ & [[H _]|[H _]]); contradiction.
Qed.

Lemma main_succeeds_only_through_a_filter_witness :
  (filter_parent (Driver.step "m1" " -p c1 -p a1") "m1" initial).1 = Ok tt /\
  exit_status (main (Driver.step "m1" " -p c1 -p a1") "filter.py" ["parent"] initial).1 = 0.
Proof.
  split; [reflexivity|].
  apply (proj1 (main_succeeds_only_through_a_filter (Driver.step "m1" " -p c1 -p a1")
                  "filter.py" ["parent"] initial)).
  exists "m1". split; [reflexivity|]. right. split; reflexivity.
Defined.

(** X15: without [GIT_COMMIT] the script dies of a [KeyError] before it looks
    at its arguments, printing nothing; with it, a first argument that is
    missing or is neither [index] nor [parent] makes it print the usage line
    with the script's name and exit with status 1, no command run and no
    store touched. *)
Theorem main_without_a_filter_to_run
    (w : World) (argv0 : string) (args : list string) (st : State) :
  (environ w !! "GIT_COMMIT" = None ->
   main w argv0 args st = (Uncaught (KeyError "GIT_COMMIT"), st)) /\
  (forall rev,
     environ w !! "GIT_COMMIT" = Some rev ->
     head args <> Some "index" -> head args <> Some "parent" ->
     (main w argv0 args st).1 = SystemExit 1 /\
     stdout (main w argv0 args st).2
       = stdout st +:+ "Usage: " +:+ argv0 +:+ " index|parent" +:+ nl /\
     effects (main w argv0 args st).2 = effects st /\
     cache_should_edit (main w argv0 args st).2 = cache_should_edit st /\
     cache_map_to_new_upstream (main w argv0 args st).2 = cache_map_to_new_upstream st).
Proof.
  unfold main. split.
  - intros ->. reflexivity.
  - intros rev -> Hi Hp.
    destruct (cmd_is (head args) "index") eqn:Ei;
      [apply cmd_is_iff in Ei; contradiction|].
    destruct (cmd_is (head args) "parent") eqn:Ep;
      [apply cmd_is_iff in Ep; contradiction|].
    cbn [fst snd print stdout effects cache_should_edit cache_map_to_new_upstream].
    repeat split.
    unfold usage_message. rewrite !append_assoc. reflexivity.
Qed.

Lemma main_without_a_filter_to_run_witness :
  main (Driver.repo ∅ "") "filter.py" ["bogus"] initial
    = (Uncaught (KeyError "GIT_COMMIT"), initial) /\
  (main (Driver.step "c1" "") "filter.py" [] initial).1 = SystemExit 1 /\
  stdout (main (Driver.step "c1" "") "filter.py" ["tree"; "index"] initial).2
    = "Usage: filter.py index|parent" +:+ nl.
Proof.
  split; [|split].
  - apply (proj1 (main_without_a_filter_to_run (Driver.repo ∅ "") "filter.py" ["bogus"]
                   initial)).
    reflexivity.
  - destruct (proj2 (main_without_a_filter_to_run (Driver.step "c1" "") "filter.py" []
                       initial) "c1" eq_refl) as (H & _); [discriminate|discriminate|].
    exact H.
  - destruct (proj2 (main_without_a_filter_to_run (Driver.step "c1" "") "filter.py"
                       ["tree"; "index"] initial) "c1" eq_refl) as (_ & H & _);
      [discriminate|discriminate|].
    exact H.
Defined.

(** ** The two filters on the same commit *)

Lemma reference_parent_among_new_parents w parents fallback :
  (forall p, p ∈ parents -> exists r, map_to_new_upstream_body w p = Ok r) ->
  exists ref,
    reference_parent w parents fallback = Ok ref /\
    (ref ∈ map (new_parent w) parents \/
     (ref = fallback /\
      forall p, p ∈ parents -> map_to_new_upstream_body w p = Ok None)).
Proof.
  induction parents as [|p rest IH]; intros Hok; cbn [reference_parent map].
  - exists fallback. split; [reflexivity|]. right. split; [reflexivity|].
    intros p Hp. apply elem_of_nil in Hp. contradiction.
  - destruct (Hok p) as [r Hr]; [apply list_elem_of_here|].
    rewrite Hr. destruct r as [t|].
    + exists t. split; [reflexivity|]. left.
      unfold new_parent at 1. rewrite Hr. apply list_elem_of_here.
    + destruct IH as (ref & Href & Hcase);
        [intros q Hq; apply Hok, list_elem_of_further, Hq|].
      exists ref. split; [exact Href|].
      destruct Hcase as [Hin|[-> Hnone]].
      * left. apply list_elem_of_further, Hin.
      * right. split; [reflexivity|].
        intros q Hq. apply elem_of_cons in Hq as [->|Hq]; [exact Hr|apply Hnone, Hq].
Qed.

(** X16: the two filters agree on a commit: when every parent gets an answer
    from the mapper, the reference parent that the loop of [filter_index]
    settles on is one of the parents that the loop of [filter_parent]
    emits. *)
Theorem reference_parent_is_an_emitted_parent
    (w : World) (st st' : State) (p0 : string) (ps : list string) :
  coherent_map_to_new_upstream w st -> coherent_map_to_new_upstream w st' ->
  Forall (fun p => p <> "-p") (p0 :: ps) ->
  (forall p, p ∈ p0 :: ps -> exists r, map_to_new_upstream_body w p = Ok r) ->
  exists ref new_parents,
    (first_mapped_parent w (p0 :: ps) p0 st).1 = Ok ref /\
    (rewrite_parents w (flag_tagged (p0 :: ps)) [] st').1 = Ok (flag_tagged new_parents) /\
    length new_parents = length (p0 :: ps) /\
    ref ∈ new_parents.
Proof.
  intros Hc Hc' Hflag Hok.
  destruct (reference_parent_among_new_parents w (p0 :: ps) p0 Hok)
    as (ref & Href & Hcase).
  destruct (rewrite_parents_run w (p0 :: ps) [] st' Hc' Hflag Hok) as (Hrun & _).
  exists ref, (map (new_parent w) (p0 :: ps)).
  split; [rewrite (first_mapped_parent_result w _ _ st Hc); exact Href|].
  split; [exact Hrun|]. split; [apply length_map|].
  destruct Hcase as [Hin|[-> Hnone]]; [exact Hin|].
  cbn [map]. unfold new_parent at 1.
  rewrite (Hnone p0); [apply list_elem_of_here|apply list_elem_of_here].
Qed.

Lemma reference_parent_is_an_emitted_parent_witness :
  exists ref new_parents,
    (first_mapped_parent (Fixture.repo "") ["c1"; "a1"] "c1" initial).1 = Ok ref /\
    (rewrite_parents (Fixture.repo "") (flag_tagged ["c1"; "a1"]) [] initial).1
      = Ok (flag_tagged new_parents) /\
    length new_parents = 2%nat /\
    ref ∈ new_parents.
Proof.
  assert (Hflag : Forall (fun p : string => p <> "-p") ["c1"; "a1"])
    by (repeat constructor; discriminate).
  assert (Hok : forall p, p ∈ ["c1"; "a1"] ->
            exists r, map_to_new_upstream_body (Fixture.repo "") p = Ok r).
  { intros p Hp. mem_inv Hp; subst p; eexists; reflexivity. }
  exact (reference_parent_is_an_emitted_parent (Fixture.repo "") initial initial
           "c1" ["a1"] (coherent_map_to_new_upstream_initial _)
           (coherent_map_to_new_upstream_initial _) Hflag Hok).
Defined.

(** Words joined by single spaces split back into the same words. *)
Lemma split_ws_word_then s x :
  is_word x = true -> split_ws (x +:+ " " +:+ s) = x :: split_ws s.
Proof.
  unfold is_word. destruct x as [|c x]; [discriminate|]. cbn [String.eqb negb andb].
  revert c. induction x as [|c' x IH]; intros c Hw; cbn [no_space] in Hw.
  - apply andb_true_iff in Hw as [Hc _]. apply negb_true_iff in Hc.
    change (String c "" +:+ " " +:+ s) with (String c (String " " s)).
    cbn [split_ws]. rewrite Hc. reflexivity.
  - apply andb_true_iff in Hw as [Hc Hw]. apply negb_true_iff in Hc.
    pose proof Hw as Hw'. cbn [no_space] in Hw'.
    apply andb_true_iff in Hw' as [Hc' _]. apply negb_true_iff in Hc'.
    change (String c (String c' x) +:+ " " +:+ s)
      with (String c (String c' x +:+ " " +:+ s)).
    cbn [split_ws]. rewrite Hc.
    change (String c' x +:+ " " +:+ s) with (String c' (x +:+ " " +:+ s)).
    cbv iota. rewrite Hc'.
    change (String c' (x +:+ " " +:+ s)) with (String c' x +:+ " " +:+ s).
    rewrite (IH c' Hw). reflexivity.
Qed.

Lemma split_ws_word x : is_word x = true -> split_ws x = [x].
Proof.
  unfold is_word. destruct x as [|c x]; [discriminate|]. cbn [String.eqb negb andb].
  revert c. induction x as [|c' x IH]; intros c Hw; cbn [no_space] in Hw.
  - apply andb_true_iff in Hw as [Hc _]. apply negb_true_iff in Hc.
    cbn [split_ws]. rewrite Hc. reflexivity.
  - apply andb_true_iff in Hw as [Hc Hw]. apply negb_true_iff in Hc.
    pose proof Hw as Hw'. cbn [no_space] in Hw'.
    apply andb_true_iff in Hw' as [Hc' _]. apply negb_true_iff in Hc'.
    cbn [split_ws]. rewrite Hc, Hc'.
    pose proof (IH c' Hw) as H. cbn [split_ws] in H. rewrite Hc' in H.
    rewrite H. reflexivity.
Qed.

Lemma split_ws_join l :
  Forall (fun x => is_word x = true) l -> split_ws (join " " l) = l.
Proof.
  induction l as [|x l IH]; intros Hl; [reflexivity|].
  inversion Hl as [|? ? Hx Hl']; subst.
  destruct l as [|y l]; [apply split_ws_word, Hx|].
  change (join " " (x :: y :: l)) with (x +:+ " " +:+ join " " (y :: l)).
  rewrite (split_ws_word_then _ x Hx), (IH Hl'). reflexivity.
Qed.

(** X17: the line [filter_parent] prints for a commit to edit splits back,
    at whitespace, into the rewritten flag-tagged list, provided the parents
    it emits are words (not empty, no whitespace inside): the driver reads
    back as many [-p] flags and parents as it wrote, in the same order. *)
Theorem printed_parent_list_splits_back
    (w : World) (st : State) (rev : string) (ps : list string) :
  coherent_map_to_new_upstream w st ->
  (should_edit w rev st).1 = Ok true ->
  split_ws (strip (stdin w)) = flag_tagged ps ->
  Forall (fun p => p <> "-p") ps ->
  (forall p, p ∈ ps -> exists r, map_to_new_upstream_body w p = Ok r) ->
  Forall (fun p => is_word (new_parent w p) = true) ps ->
  exists line,
    stdout (filter_parent w rev st).2 = stdout st +:+ line +:+ nl /\
    split_ws (line +:+ nl) = flag_tagged (map (new_parent w) ps) /\
    length (split_ws (line +:+ nl)) = length (split_ws (strip (stdin w))).
Proof.
  intros Hc Hedit Hin Hflag Hok Hwords.
  pose proof (should_edit_frame w rev st) as (Fo & _). cbv zeta in Fo.
  pose proof (should_edit_keeps_map_coherent w rev st Hc) as Hc1.
  exists (join " " (flag_tagged (map (new_parent w) ps))).
  assert (Hsplit : split_ws (join " " (flag_tagged (map (new_parent w) ps)) +:+ nl)
                   = flag_tagged (map (new_parent w) ps)).
  { rewrite split_ws_app_nl. apply split_ws_join.
    clear -Hwords. induction Hwords as [|p ps Hp _ IH]; [constructor|].
    cbn [map]. rewrite flag_tagged_cons.
    constructor; [reflexivity|]. constructor; [exact Hp|exact IH]. }
  split; [|split; [exact Hsplit|]].
  - unfold filter_parent, time_decorator, bind.
    destruct (should_edit w rev st) as [r st1]. cbn [fst snd] in *. subst r.
    cbn [negb]. rewrite Hin.
    destruct (rewrite_parents_run w ps [] st1 Hc1 Hflag Hok) as (H1 & H2 & _).
    destruct (rewrite_parents w (flag_tagged ps) [] st1) as [r st2]. cbn [fst snd] in *.
    subst r. cbn [app print snd stdout]. rewrite H2, Fo. reflexivity.
  - rewrite Hsplit, Hin. clear. induction ps as [|p ps IH]; [reflexivity|].
    cbn [map]. rewrite !flag_tagged_cons. cbn [length]. rewrite IH. reflexivity.
Qed.

Lemma printed_parent_list_splits_back_witness :
  exists line,
    stdout (filter_parent (Fixture.repo " -p c1 -p a1") "m1" initial).2
      = "" +:+ line +:+ nl /\
    split_ws (line +:+ nl) = ["-p"; "c1"; "-p"; "b1"].
Proof.
  assert (Hflag : Forall (fun p : string => p <> "-p") ["c1"; "a1"])
    by (repeat constructor; discriminate).
  assert (Hok : forall p, p ∈ ["c1"; "a1"] ->
            exists r, map_to_new_upstream_body (Fixture.repo " -p c1 -p a1") p = Ok r).
  { intros p Hp. mem_inv Hp; subst p; eexists; reflexivity. }
  assert (Hw : Forall (fun p => is_word (new_parent (Fixture.repo " -p c1 -p a1") p) = true)
                 ["c1"; "a1"])
    by (repeat constructor).
  destruct (printed_parent_list_splits_back (Fixture.repo " -p c1 -p a1") initial "m1"
              ["c1"; "a1"] (coherent_map_to_new_upstream_initial _)
              eq_refl eq_refl Hflag Hok Hw) as (line & H1 & H2 & _).
  exists line. split; [exact H1|exact H2].
Defined.
